(** * tdda.referencetest.checkgeopandas: comparison of geodataframes

    A shallow embedding of [src/tdda/referencetest/checkgeopandas.py] and
    the properties its specification states about it.

    Modelling choices, in one place:
    - a dataframe is the ordered list of its columns; a column has a name,
      a dtype and its cells.  Cells are integers, floats, text, booleans
      or the missing marker (NaN / None); datetime and geometry cells do
      not occur in any property below and are left out;
    - float64 cells are exact rationals: [round] is numpy's
      [rint(x * 10**p) / 10**p] with ties to even, on the exact value.
      Concrete inputs below are chosen away from binary rounding noise;
    - dataframes are Python objects: the two arguments of
      [check_geodataframe] are references into a heap, so that
      [sort_values(..., inplace=True)] is visible to the caller and two
      arguments may alias;
    - [msgs] (a [Diffs] object) is the [diffs] component of the state;
      a call with [msgs=None] starts from the empty log;
    - raising is modelled by [Raise]; what was appended to the log before
      the exception stays in the log, as it does in Python;
    - [gpd.isnull], [np.int] and [np.float] are read as the null test on
      a scalar and the builtin number types, which is how the module
      uses them; [sort_values] is modelled by a stable sort, missing
      cells last. *)

From Stdlib Require Import ZArith QArith String Ascii List Bool Lia DecimalString.
From Stdlib Require Import Permutation Sorted.
From stdpp Require Import base gmap strings list.

Local Open Scope Z_scope.

(** ** Exceptions and results *)

Inductive exn :=
| NameError (msg : string)
| TypeError (msg : string)
| KeyError (msg : string)
| ValueError (msg : string)
| NotImplementedError (msg : string).

(** [e.__class__.__name__] *)
Definition exn_class_name (e : exn) : string :=
  match e with
  | NameError _ => "NameError"
  | TypeError _ => "TypeError"
  | KeyError _ => "KeyError"
  | ValueError _ => "ValueError"
  | NotImplementedError _ => "NotImplementedError"
  end.

(** [str(e)] *)
Definition exn_str (e : exn) : string :=
  match e with
  | NameError m | TypeError m | KeyError m | ValueError m
  | NotImplementedError m => m
  end.

Inductive result (A : Type) :=
| Ok (a : A)
| Raise (e : exn).
Arguments Ok {A} a.
Arguments Raise {A} e.

Definition rbind {A B} (r : result A) (k : A -> result B) : result B :=
  match r with
  | Ok a => k a
  | Raise e => Raise e
  end.

Declare Scope result_scope.
Delimit Scope result_scope with res.
Notation "x <- c ;; k" := (rbind c (fun x => k))
  (at level 100, c at next level, right associativity) : result_scope.

Fixpoint rmapM {A B} (f : A -> result B) (l : list A) : result (list B) :=
  match l with
  | [] => Ok []
  | a :: l' => (b <- f a ;; bs <- rmapM f l' ;; Ok (b :: bs))%res
  end.

(** ** Cells, dtypes, columns, dataframes *)

Inductive dtype := int64 | float64 | object | bool_.

Definition dtype_eqb (a b : dtype) : bool :=
  match a, b with
  | int64, int64 | float64, float64 | object, object | bool_, bool_ => true
  | _, _ => false
  end.

(** [str(dtype)], as in "Wrong column type b (float64, expected int64)" *)
Definition dtype_str (d : dtype) : string :=
  match d with
  | int64 => "int64"
  | float64 => "float64"
  | object => "object"
  | bool_ => "bool"
  end.

Inductive value :=
| VNull
| VInt (z : Z)
| VFloat (q : Q)
| VStr (s : string)
| VBool (b : bool).

(** [gpd.isnull(v)] on a scalar. *)
Definition isnull (v : value) : bool :=
  match v with VNull => true | _ => false end.

(** The number a cell stands for in a Python comparison
    ([True == 1], [1 == 1.0]). *)
Definition numeric (v : value) : option Q :=
  match v with
  | VInt z => Some (inject_Z z)
  | VFloat q => Some q
  | VBool b => Some (inject_Z (if b then 1 else 0))
  | _ => None
  end.

(** [v1 == v2]: the missing marker (NaN) equals nothing. *)
Definition py_eq (v1 v2 : value) : bool :=
  match v1, v2 with
  | VStr a, VStr b => String.eqb a b
  | _, _ =>
      match numeric v1, numeric v2 with
      | Some a, Some b => Qeq_bool a b
      | _, _ => false
      end
  end.

(** [v1 != v2] *)
Definition py_ne (v1 v2 : value) : bool := negb (py_eq v1 v2).

Record column := Column {
  name : string;
  col_dtype : dtype;
  values : list value
}.

Abbreviation dataset := (list column).

(** [list(gdf)]: the column names, in order. *)
Definition columns (d : dataset) : list string := map name d.

(** [c in l] for a list of names. *)
Definition mem (c : string) (l : list string) : bool :=
  existsb (String.eqb c) l.

(** [gdf[c]] for a single name; [KeyError] when absent. *)
Fixpoint find_column (c : string) (d : dataset) : option column :=
  match d with
  | [] => None
  | col :: d' => if String.eqb c (name col) then Some col else find_column c d'
  end.

(** [repr] of a name: single quotes (names without quotes or escapes). *)
Definition repr_str (s : string) : string := "'" +:+ s +:+ "'".

Definition getitem (d : dataset) (c : string) : result column :=
  match find_column c d with
  | Some col => Ok col
  | None => Raise (KeyError (repr_str c))
  end.

(** [gdf[names]] for a list of names. *)
Definition project (d : dataset) (names : list string) : result dataset :=
  rmapM (getitem d) names.

(** [len(gdf)] *)
Definition nrows (d : dataset) : nat :=
  match d with
  | [] => 0%nat
  | col :: _ => length (values col)
  end.

(** ** Text rendering *)

Fixpoint join (sep : string) (l : list string) : string :=
  match l with
  | [] => EmptyString
  | [s] => s
  | s :: l' => s +:+ sep +:+ join sep l'
  end.

(** ["%d" % z] *)
Definition str_Z (z : Z) : string := NilZero.string_of_int (Z.to_int z).
Definition str_nat (n : nat) : string := str_Z (Z.of_nat n).

(** [str(l)] for a list of names: ['a', 'b'] *)
Definition repr_list (l : list string) : string :=
  "[" +:+ join ", " (map repr_str l) +:+ "]".

(** Nearest integer, ties to even ([rint]). *)
Definition round_half_even (q : Q) : Z :=
  let n := Qnum q in
  let d := Z.pos (Qden q) in
  let fl := n / d in
  let r2 := 2 * (n mod d) in
  if r2 <? d then fl
  else if d <? r2 then fl + 1
  else if Z.even fl then fl else fl + 1.

Definition pow10 (p : nat) : Z := 10 ^ Z.of_nat p.

(** [x] scaled by [10**p] and rounded: the integer [round] and ["%.*f"]
    both work from. *)
Definition scaled (p : nat) (q : Q) : Z :=
  round_half_even (q * inject_Z (pow10 p)).

(** [np.round(x, p)] *)
Definition round_float (p : nat) (q : Q) : Q :=
  Qred (Qmake (scaled p q) (Z.to_pos (pow10 p))).

Fixpoint zeros (n : nat) : string :=
  match n with
  | O => EmptyString
  | S n' => "0" +:+ zeros n'
  end.

(** ["%.*f" % (p, x)] *)
Definition format_float (p : nat) (q : Q) : string :=
  let s := scaled p q in
  let a := Z.abs s in
  let ip := a / pow10 p in
  let fp := str_Z (a mod pow10 p) in
  (if s <? 0 then "-" else EmptyString) +:+ str_Z ip +:+
  match p with
  | O => EmptyString
  | _ => "." +:+ zeros (p - String.length fp) +:+ fp
  end.

(** ** Option flags *)

Inductive flag :=
| FNone
| FTrue
| FFalse
| FList (l : list string)
| FFun (f : dataset -> list string).

Definition resolve_option_flag (fl : flag) (gdf : dataset) : list string :=
  match fl with
  | FNone | FTrue => columns gdf
  | FFalse => []
  | FFun f => f gdf
  | FList l => l
  end.

(** Truth value of a flag in [if flag:]. *)
Definition truthy (fl : flag) : bool :=
  match fl with
  | FNone | FFalse => false
  | FTrue | FFun _ => true
  | FList l => negb (Nat.eqb (length l) 0)
  end.

(** [flag != False] *)
Definition not_False (fl : flag) : bool :=
  match fl with FFalse => false | _ => true end.

(** Truth value of a list. *)
Definition nonempty {A} (l : list A) : bool :=
  match l with [] => false | _ => true end.

(** Truth value of an optional path ([None] and the empty string are
    false). *)
Definition path_given (p : option string) : bool :=
  match p with
  | Some s => negb (String.eqb s EmptyString)
  | None => false
  end.

(** ** The difference sampler *)

(** [values[i]] on a column with the default 0..n-1 index. *)
Definition series_get (vs : list value) (i : nat) : result value :=
  match nth_error vs i with
  | Some v => Ok v
  | None => Raise (KeyError (str_nat i))
  end.

(** The rows agree: [v1 == v2 or (isnull(v1) and isnull(v2))]. *)
Definition agree (v1 v2 : value) : bool :=
  py_eq v1 v2 || (isnull v1 && isnull v2).

(** The rows differ:
    [val != refval and not (isnull(val) and isnull(refval))]. *)
Definition differ (v1 v2 : value) : bool :=
  py_ne v1 v2 && negb (isnull v1 && isnull v2).

Fixpoint ndifferences_loop (values1 values2 : list value)
    (range : list nat) (stop : nat) : result nat :=
  match range with
  | [] => Ok stop
  | i :: range' =>
      (v1 <- series_get values1 i ;;
       v2 <- series_get values2 i ;;
       if agree v1 v2 then Ok i
       else ndifferences_loop values1 values2 range' stop)%res
  end.

Definition ndifferences (values1 values2 : list value) (start limit : nat)
    : result nat :=
  let stop := Nat.min (start + limit) (length values1) in
  ndifferences_loop values1 values2 (seq start (stop - start)) stop.

Definition sample (vs : list value) (start stop : nat)
    : result (list value) :=
  rmapM (fun i => (v <- series_get vs i ;;
                   Ok (if isnull v then VNull else v))%res)
        (seq start (stop - start)).

(** The double quote put around text cells. *)
Definition dquote : string := String (ascii_of_nat 34) EmptyString.

(** [str(v)] *)
Definition str_value (p : nat) (v : value) : string :=
  match v with
  | VNull => "None"
  | VInt z => str_Z z
  | VFloat q => format_float p q
  | VStr s => s
  | VBool b => if b then "True" else "False"
  end.

(** One cell of a sample, rendered by its type and the column's dtype. *)
Definition format_cell (dt : dtype) (p : nat) (v : value) : string :=
  match v with
  | VNull => "null"
  | VInt z => str_Z z
  | VFloat q => format_float p q
  | _ => if dtype_eqb dt object
         then dquote +:+ str_value p v +:+ dquote
         else str_value p v
  end.

Definition sample_format (vals : column) (start stop precision : nat)
    : result string :=
  (s <- sample (values vals) start stop ;;
   let r := join ", " (map (format_cell (col_dtype vals) precision) s) in
   Ok (if Z.of_nat (length s) <? Z.of_nat stop - Z.of_nat start
       then r +:+ " ..." else r))%res.

Fixpoint differences_loop (vals ref_values : column) (precision : nat)
    (rest : list value) (i : nat) : result string :=
  match rest with
  | [] =>
      Ok (if dtype_eqb (col_dtype vals) (col_dtype ref_values)
          then "But mysteriously appear to be identical!"
          else "Different types")
  | val :: rest' =>
      (refval <- series_get (values ref_values) i ;;
       if differ val refval then
         stop <- ndifferences (values vals) (values ref_values) i 10 ;;
         summary_vals <- sample_format vals i stop precision ;;
         summary_ref_vals <- sample_format ref_values i stop precision ;;
         Ok ("From row " +:+ str_nat (i + 1) +:+ ": [" +:+ summary_vals
             +:+ "] != [" +:+ summary_ref_vals +:+ "]")
       else differences_loop vals ref_values precision rest' (S i))%res
  end.

Definition differences (vals ref_values : column) (precision : nat)
    : result string :=
  differences_loop vals ref_values precision (values vals) 0.

(** ** Rounding and equality of frames *)

Definition round_value (p : nat) (v : value) : value :=
  match v with
  | VFloat q => VFloat (round_float p q)
  | _ => v
  end.

(** [gdf.round(p)]: float columns are rounded, the others untouched. *)
Definition round_column (p : nat) (c : column) : column :=
  match col_dtype c with
  | float64 => Column (name c) float64 (map (round_value p) (values c))
  | _ => c
  end.

Definition round_frame (p : nat) (d : dataset) : dataset :=
  map (round_column p) d.

Fixpoint forallb2 {A B} (f : A -> B -> bool) (l1 : list A) (l2 : list B)
    : bool :=
  match l1, l2 with
  | [], [] => true
  | a :: l1', b :: l2' => f a b && forallb2 f l1' l2'
  | _, _ => false
  end.

(** [Series.equals]: same dtype, same length, cells agree (two missing
    cells in the same place agree). *)
Definition series_equals (a b : column) : bool :=
  dtype_eqb (col_dtype a) (col_dtype b) && forallb2 agree (values a) (values b).

(** [DataFrame.equals] *)
Definition frame_equals (a b : dataset) : bool :=
  forallb2 (fun x y => String.eqb (name x) (name y) && series_equals x y) a b.

(** ** Sorting and filtering rows *)

Definition is_str (v : value) : bool :=
  match v with VStr _ => true | _ => false end.

(** A sort key can be ordered when its present cells are all text or all
    numbers; Python refuses to order text against a number. *)
Definition sortable (vs : list value) : bool :=
  forallb (fun v => isnull v || is_str v) vs
  || forallb (fun v => isnull v || negb (is_str v)) vs.

(** Order of two cells of a key, missing cells last. *)
Definition cell_compare (v1 v2 : value) : comparison :=
  match v1, v2 with
  | VNull, VNull => Eq
  | VNull, _ => Gt
  | _, VNull => Lt
  | VStr a, VStr b => String.compare a b
  | _, _ =>
      match numeric v1, numeric v2 with
      | Some a, Some b => Qcompare a b
      | _, _ => Eq
      end
  end.

(** Keys are compared field by field, left to right. *)
Fixpoint key_compare (k1 k2 : list value) : comparison :=
  match k1, k2 with
  | v1 :: k1', v2 :: k2' =>
      match cell_compare v1 v2 with
      | Eq => key_compare k1' k2'
      | c => c
      end
  | _, _ => Eq
  end.

Fixpoint insert_index (key : nat -> list value) (i : nat) (l : list nat)
    : list nat :=
  match l with
  | [] => [i]
  | j :: l' =>
      match key_compare (key i) (key j) with
      | Gt => j :: insert_index key i l'
      | _ => i :: l
      end
  end.

(** Row numbers in ascending key order; rows with equal keys keep their
    order. *)
Definition argsort (key : nat -> list value) (n : nat) : list nat :=
  fold_right (insert_index key) [] (seq 0 n).

Definition take_rows (perm : list nat) (c : column) : column :=
  Column (name c) (col_dtype c) (map (fun i => nth i (values c) VNull) perm).

(** The frame [gdf.sort_values(by)] leaves behind. *)
Definition sort_values (by_ : list string) (d : dataset) : result dataset :=
  (keys <- rmapM (fun c =>
             col <- getitem d c ;;
             if sortable (values col) then Ok (values col)
             else Raise (TypeError
               "'<' not supported between instances of 'str' and 'int'"))
           by_ ;;
   let key := fun i => map (fun vs => nth i vs VNull) keys in
   Ok (map (take_rows (argsort key (nrows d))) d))%res.

Fixpoint filter_mask {A} (mask : list bool) (l : list A) : list A :=
  match mask, l with
  | b :: mask', x :: l' =>
      if b then x :: filter_mask mask' l' else filter_mask mask' l'
  | _, _ => []
  end.

(** [gdf[condition(gdf)].reindex()] *)
Definition apply_condition (condition : option (dataset -> list bool))
    (d : dataset) : result dataset :=
  match condition with
  | None => Ok d
  | Some f =>
      let mask := f d in
      if Nat.eqb (length mask) (nrows d)
      then Ok (map (fun c => Column (name c) (col_dtype c)
                                    (filter_mask mask (values c))) d)
      else Raise (ValueError "Item wrong length")
  end.

(** ** The schema loops *)

Fixpoint check_types_loop (gdf ref_gdf : dataset) (cs : list string)
    (missing_cols : list string) (wrong_types : list (string * dtype * dtype))
    : result (list string * list (string * dtype * dtype)) :=
  match cs with
  | [] => Ok (missing_cols, wrong_types)
  | c :: cs' =>
      if negb (mem c (columns gdf))
      then check_types_loop gdf ref_gdf cs' (missing_cols ++ [c]) wrong_types
      else
        (a <- getitem gdf c ;;
         r <- getitem ref_gdf c ;;
         if negb (dtype_eqb (col_dtype a) (col_dtype r))
         then check_types_loop gdf ref_gdf cs' missing_cols
                (wrong_types ++ [(c, col_dtype a, col_dtype r)])
         else check_types_loop gdf ref_gdf cs' missing_cols wrong_types)%res
  end.

Fixpoint names_eqb (l1 l2 : list string) : bool :=
  match l1, l2 with
  | [], [] => true
  | a :: l1', b :: l2' => String.eqb a b && names_eqb l1' l2'
  | _, _ => false
  end.

(** The loop that explains a wrong ordering. *)
Fixpoint ordermsg_loop (c1 c2 : list string) (i : nat) : string :=
  match c1 with
  | [] => "mysterious difference, they appear to be the same!"
  | c :: c1' =>
      match nth_error c2 i with
      | None => "not enough columns"
      | Some c' =>
          if negb (String.eqb c c')
          then "found " +:+ c +:+ ", expected " +:+ c'
          else ordermsg_loop c1' c2 (S i)
      end
  end.

(** ** State: the heap of dataframes and the message log *)

Abbreviation loc := nat (only parsing).

Record state := State {
  heap : gmap loc dataset;
  diffs : list string
}.

Definition M (A : Type) : Type := state -> result A * state.

Definition ret {A} (a : A) : M A := fun st => (Ok a, st).

Definition bind {A B} (m : M A) (k : A -> M B) : M B :=
  fun st =>
    match m st with
    | (Ok a, st') => k a st'
    | (Raise e, st') => (Raise e, st')
    end.

Definition raise {A} (e : exn) : M A := fun st => (Raise e, st).

Definition lift {A} (r : result A) : M A := fun st => (r, st).

Declare Scope M_scope.
Delimit Scope M_scope with M.
Notation "x <- c ;; k" := (bind c (fun x => k))
  (at level 100, c at next level, right associativity) : M_scope.
Notation "c ;; k" := (bind c (fun _ => k))
  (at level 100, right associativity) : M_scope.

(** Reading the object a reference points to. *)
Definition load (l : loc) : M dataset :=
  fun st => (Ok (heap st !!! l), st).

(** Overwriting an object in place. *)
Definition store (l : loc) (d : dataset) : M unit :=
  fun st => (Ok tt, State (<[l := d]> (heap st)) (diffs st)).

(** A new object. *)
Definition alloc (d : dataset) : M loc :=
  fun st =>
    let l := fresh (dom (heap st)) in
    (Ok l, State (<[l := d]> (heap st)) (diffs st)).

(** Modelled from the spec: [BaseComparison.info(msgs, s)], which is not
    part of the sources at hand, appends the line [s] to the log [msgs]
    (the log is an ordered, append-only sequence of message strings). *)
Definition info (s : string) : M unit :=
  fun st => (Ok tt, State (heap st) (diffs st ++ [s])).

(** [gdf.sort_values(by, inplace=True)] *)
Definition sort_in_place (l : loc) (by_ : list string) : M unit :=
  (d <- load l ;;
   d' <- lift (sort_values by_ d) ;;
   store l d')%M.

Definition catch {A} (m : M A) (handler : exn -> M A) : M A :=
  fun st =>
    match m st with
    | (Ok a, st') => (Ok a, st')
    | (Raise e, st') => handler e st'
    end.

(** ** The comparison *)

Section Comparison.

(** [os.path.normpath], and [BaseComparison.compare_with], the hint line
    that tells how to inspect two files by hand. *)
Variable normpath : string -> string.
Variable compare_with : string -> string -> string.

Local Open Scope M_scope.

Definition failure (s : string) (actual_path expected_path : option string)
    : M unit :=
  (if path_given actual_path && path_given expected_path then
     info (compare_with (normpath (default EmptyString actual_path))
                        (default EmptyString expected_path))
   else if path_given expected_path then
     info ("Expected file " +:+ default EmptyString expected_path)
   else if path_given actual_path then
     info ("Actual file " +:+ normpath (default EmptyString actual_path))
   else ret tt) ;;
  info s.

Fixpoint info_wrong_types (wrong_types : list (string * dtype * dtype))
    : M unit :=
  match wrong_types with
  | [] => ret tt
  | (c, dt, ref_dt) :: rest =>
      info ("Wrong column type " +:+ c +:+ " (" +:+ dtype_str dt
            +:+ ", expected " +:+ dtype_str ref_dt +:+ ")") ;;
      info_wrong_types rest
  end.

(** The four axes of the column check. *)
Record schema := Schema {
  missing_cols : list string;
  extra_cols : list string;
  wrong_types : list (string * dtype * dtype);
  wrong_ordering : bool
}.

(** [any((missing_cols, extra_cols, wrong_types, wrong_ordering))] *)
Definition any_axis (s : schema) : bool :=
  nonempty (missing_cols s) || nonempty (extra_cols s)
  || nonempty (wrong_types s) || wrong_ordering s.

(** Lines 126-147: the column check.  Line 141 names [ref_df], which is
    neither a local nor a global of the module: evaluating it raises
    [NameError]. *)
Definition check_columns (g r : dataset)
    (check_types check_order check_extra_cols : flag) : result schema :=
  (let check_types := resolve_option_flag check_types r in
   let check_extra_cols := resolve_option_flag check_extra_cols g in
   mw <- check_types_loop g r check_types [] [] ;;
   let '(missing_cols, wrong_types) := mw in
   extra_cols <- (if nonempty check_extra_cols
                  then Raise (NameError "name 'ref_df' is not defined")
                  else Ok (@nil string)) ;;
   let wrong_ordering :=
     if not_False check_order && negb (nonempty missing_cols) then
       let check_order := resolve_option_flag check_order r in
       let c1 := List.filter (fun c => mem c check_order) (columns g) in
       let c2 := List.filter (fun c => mem c check_order) (columns r) in
       negb (names_eqb c1 c2)
     else false in
   Ok (Schema missing_cols extra_cols wrong_types wrong_ordering))%res.

(** Lines 149-173: the messages of a failed column check. *)
Definition report_columns (g r : dataset) (check_types : list string)
    (s : schema) (actual_path expected_path : option string) : M unit :=
  if any_axis s then
    failure "Column check failed." actual_path expected_path ;;
    (if nonempty (missing_cols s)
     then info ("Missing columns: " +:+ repr_list (missing_cols s))
     else ret tt) ;;
    (if nonempty (extra_cols s)
     then info ("Extra columns: " +:+ repr_list (extra_cols s))
     else ret tt) ;;
    info_wrong_types (wrong_types s) ;;
    (if wrong_ordering s then
       let c1 := List.filter (fun c => mem c check_types) (columns g) in
       let c2 := List.filter (fun c => mem c check_types) (columns r) in
       info ("Wrong column ordering: " +:+ ordermsg_loop c1 c2 0)
     else ret tt)
  else ret tt.

(** Lines 175-181: the sort.  Line 178 calls [self.info] with the text
    alone: the log argument is left out, so Python raises [TypeError]
    before anything is appended. *)
Definition sort_phase (gdf ref_gdf : loc) (r : dataset) (sortby : flag)
    (missing_cols : list string) : M unit :=
  if truthy sortby then
    let sortby := resolve_option_flag sortby r in
    if existsb (fun c => mem c sortby) missing_cols then
      raise (TypeError "info() missing 1 required positional argument: 's'")
    else
      sort_in_place gdf sortby ;;
      sort_in_place ref_gdf sortby
  else ret tt.

Fixpoint report_differences (rounded ref_rounded : dataset)
    (cs : list string) (precision : nat) : M unit :=
  match cs with
  | [] => ret tt
  | c :: cs' =>
      a <- lift (getitem rounded c) ;;
      b <- lift (getitem ref_rounded c) ;;
      (if negb (series_equals a b) then
         d <- lift (differences a b precision) ;;
         info ("Column values differ: " +:+ c) ;;
         info d
       else ret tt) ;;
      report_differences rounded ref_rounded cs' precision
  end.

(** Lines 187-214: the length check and the content check; returns
    [same]. *)
Definition check_contents (g r : dataset) (check_data : flag)
    (missing_cols : list string) (precision : nat)
    (actual_path expected_path : option string) : M bool :=
  if negb (Nat.eqb (nrows g) (nrows r)) then
    failure "Length check failed." actual_path expected_path ;;
    info ("Found " +:+ str_nat (nrows g) +:+ " records, expected "
          +:+ str_nat (nrows r)) ;;
    ret false
  else
    let check_data := resolve_option_flag check_data r in
    if nonempty check_data then
      let check_data := List.filter (fun c => negb (mem c missing_cols)) check_data in
      g' <- lift (project g check_data) ;;
      r' <- lift (project r check_data) ;;
      let rounded := round_frame precision g' in
      let ref_rounded := round_frame precision r' in
      let same := frame_equals rounded ref_rounded in
      (if negb same then
         failure "Contents check failed." actual_path expected_path ;;
         report_differences rounded ref_rounded (columns ref_rounded) precision
       else ret tt) ;;
      ret same
    else ret true.

Definition check_geodataframe (gdf ref_gdf : loc)
    (actual_path expected_path : option string)
    (check_data check_types check_order check_extra_cols sortby : flag)
    (condition : option (dataset -> list bool)) (precision : option nat)
    : M nat :=
  let precision := default 6%nat precision in
  g <- load gdf ;;
  r <- load ref_gdf ;;
  s <- lift (check_columns g r check_types check_order check_extra_cols) ;;
  report_columns g r (resolve_option_flag check_types r) s
                 actual_path expected_path ;;
  sort_phase gdf ref_gdf r sortby (missing_cols s) ;;
  g <- load gdf ;;
  r <- load ref_gdf ;;
  g <- lift (apply_condition condition g) ;;
  r <- lift (apply_condition condition r) ;;
  same <- check_contents g r check_data (missing_cols s) precision
                         actual_path expected_path ;;
  ret (if same && negb (any_axis s) then 0%nat else 1%nat).

(** ** Files *)

(** The dictionary of options is built from [parquet.QUOTE_MINIMAL];
    the module binds no name [parquet], so the default loader raises
    before it reads anything. *)
Definition default_parquet_loader (parquetfile : string) : result dataset :=
  Raise (NameError "name 'parquet' is not defined").

Definition load_parquet (parquetfile : string)
    (loader : option (string -> result dataset)) : result dataset :=
  match loader with
  | None => default_parquet_loader parquetfile
  | Some f => f parquetfile
  end.

Definition check_parquet_file (actual_path expected_path : string)
    (loader : option (string -> result dataset))
    (check_data check_types check_order : flag)
    (condition : option (dataset -> list bool)) (sortby : flag)
    (precision : option nat) : M nat :=
  ref_d <- lift (load_parquet expected_path loader) ;;
  ref_gdf <- alloc ref_d ;;
  d <- lift (load_parquet actual_path loader) ;;
  gdf <- alloc d ;;
  check_geodataframe gdf ref_gdf (Some actual_path) (Some expected_path)
    check_data check_types check_order FNone sortby condition precision.

(** The message of a pair that raised. *)
Definition error_message (actual_path expected_path : string) (e : exn)
    : string :=
  "Error comparing " +:+ normpath actual_path +:+ " and " +:+ expected_path
  +:+ " (" +:+ exn_class_name e +:+ " " +:+ exn_str e +:+ ")".

Fixpoint check_parquet_files_loop (pairs : list (string * string))
    (loader : option (string -> result dataset))
    (check_data check_types check_order : flag)
    (condition : option (dataset -> list bool)) (sortby : flag)
    (failures : nat) : M nat :=
  match pairs with
  | [] => ret failures
  | (actual_path, expected_path) :: rest =>
      n <- catch
             (check_parquet_file actual_path expected_path loader
                check_data check_types check_order condition sortby (Some 6%nat))
             (fun e =>
                info (error_message actual_path expected_path e) ;;
                ret 1%nat) ;;
      check_parquet_files_loop rest loader check_data check_types check_order
        condition sortby (failures + n)
  end.

Definition check_parquet_files (actual_paths expected_paths : list string)
    (loader : option (string -> result dataset))
    (check_data check_types check_order : flag)
    (condition : option (dataset -> list bool)) (sortby : flag) : M nat :=
  check_parquet_files_loop (combine actual_paths expected_paths) loader
    check_data check_types check_order condition sortby 0.

End Comparison.

(** ** Field selections *)

(** [all_fields_except(exclusions)]: the names of the frame that are not
    excluded, as the list of a set.  Python does not fix the order in
    which a set is listed; the order of [elements] stands for it, and
    nothing below depends on it. *)
Definition all_fields_except (exclusions : list string)
    : dataset -> list string :=
  fun gdf =>
    elements (list_to_set (columns gdf) ∖ list_to_set exclusions
              : gset string).

(** ** The null implementation *)

Module Null.

(** What [GeoPandasComparison(...)] evaluates to. *)
Inductive instance := Comparison | NotImplemented_.

(** [GeoPandasComparison.__new__]: [gpd] is [None] when the import at the
    top of the module failed. *)
Definition new (gpd_available : bool) : instance :=
  if gpd_available then Comparison else NotImplemented_.

(** Names that ordinary attribute lookup finds on an instance of a class
    that defines nothing: those of [object] and of the class machinery.
    [__getattr__] is consulted only for names ordinary lookup misses. *)
Definition object_attributes : list string :=
  [ "__class__"; "__delattr__"; "__dict__"; "__dir__"; "__doc__"; "__eq__";
    "__format__"; "__ge__"; "__getattribute__"; "__getstate__"; "__gt__";
    "__hash__"; "__init__"; "__init_subclass__"; "__le__"; "__lt__";
    "__module__"; "__ne__"; "__new__"; "__reduce__"; "__reduce_ex__";
    "__repr__"; "__setattr__"; "__sizeof__"; "__str__"; "__subclasshook__";
    "__weakref__" ]%string.

(** What [obj.name] evaluates to on the null implementation. *)
Inductive attribute :=
| BoundMethod                  (* the class's own [method] *)
| BoundGetattr                 (* the class's own [__getattr__] *)
| FromObject (name : string)   (* inherited from [object] *)
| Lambda (name : string).      (* what [__getattr__(name)] returns *)

Definition getattribute (name : string) : attribute :=
  if String.eqb name "method" then BoundMethod
  else if String.eqb name "__getattr__" then BoundGetattr
  else if mem name object_attributes then FromObject name
  else Lambda name.

Inductive outcome :=
| Raises (e : exn)
| Returns (a : attribute)
| Inherited (name : string) (args : list string).

(** [self.method(name, *args)]; positional arguments are given by their
    text. *)
Definition method (args : list string) : outcome :=
  match args with
  | [] => Raises (TypeError
            "method() missing 1 required positional argument: 'name'")
  | name :: _ => Raises (NotImplementedError
                           (name +:+ ": GeoPandas not available."))
  end.

Definition call (a : attribute) (args : list string) : outcome :=
  match a with
  | Lambda name => method (name :: args)
  | BoundMethod => method args
  | BoundGetattr =>
      match args with
      | [name] => Returns (Lambda name)
      | _ => Raises (TypeError
               "__getattr__() takes 2 positional arguments")
      end
  | FromObject name => Inherited name args
  end.

(** Calling [obj.name] with positional arguments on the null implementation. *)
Definition call_method (name : string) (args : list string) : outcome :=
  call (getattribute name) args.

End Null.

(** * Inputs and predicates of the statements *)

(** ** Concrete frames used below *)

Definition ints (l : list Z) : list value := map VInt l.
Definition floats (l : list Q) : list value := map VFloat l.

(** The frames of the repository's own tests. *)
Definition df1 : dataset :=
  [ Column "a" int64 (ints [1; 2; 3; 4; 5]);
    Column "b" float64 (floats [1.0001; 2.0001; 3.0001; 4.0001; 5.0001]%Q) ].

Definition df2 : dataset :=
  [ Column "a" int64 (ints [1; 2; 3; 4; 5]);
    Column "b" float64 (floats [1.0002; 2.0002; 3.0002; 4.0002; 5.0002]%Q) ].

(** A heap holding the given frames at references 0, 1, ... and an empty
    log. *)
Definition heap_of (ds : list dataset) : gmap loc dataset :=
  list_to_map (zip (seq 0 (length ds)) ds).

Definition initial (ds : list dataset) : state := State (heap_of ds) [].

(** Stand-ins for the two library functions where a closed statement
    needs some. *)
Definition plain_normpath (p : string) : string := p.
Definition plain_compare_with (a e : string) : string :=
  "Compare with: " +:+ a +:+ " " +:+ e.

(** The frames of the repository's test of a file with the wrong
    columns, cut down to two rows. *)
Definition single : dataset :=
  [ Column "a single line" object [] ].

Definition colours : dataset :=
  [ Column "Name" object [VStr "red"; VStr "green"];
    Column "RGB" object [VStr "#ff0000"; VStr "#00ff00"] ].

(** Identical values, one more column on the actual side. *)
Definition one_column : dataset := [ Column "a" int64 (ints [1]) ].
Definition extra_column : dataset :=
  [ Column "a" int64 (ints [1]); Column "x" int64 (ints [1]) ].

(** A frame with no columns, and frames out of order. *)
Definition no_columns : dataset := [].
Definition unsorted : dataset := [ Column "a" int64 (ints [2; 1]) ].
Definition sorted : dataset := [ Column "a" int64 (ints [1; 2]) ].
Definition cols_ab : dataset :=
  [ Column "a" int64 (ints [1]); Column "b" int64 (ints [2]) ].
Definition cols_ba : dataset :=
  [ Column "b" int64 (ints [2]); Column "a" int64 (ints [1]) ].

(** Sixteen rows that differ from row 0 and agree again at row 15. *)
Definition run_actual : column :=
  Column "v" int64 (ints [0; 1; 2; 3; 4; 5; 6; 7; 8; 9; 10; 11; 12; 13; 14; 15]).
Definition run_expected : column :=
  Column "v" int64
    (ints [100; 101; 102; 103; 104; 105; 106; 107; 108; 109; 110; 111; 112;
           113; 114; 15]).

(** Single float cells around a rounding boundary. *)
Definition float_frame (q : Q) : dataset := [ Column "b" float64 (floats [q]) ].

(** ** The batch, in the words of its specification

    [batch_trace pairs st counts st']: running the pairs in order from
    [st] ends in [st'], and [counts] holds what each pair added to the
    total.  A pair that returns [n] adds [n]; a pair that raises adds
    exactly one and appends the one line naming both paths and the
    error, after which the next pair runs. *)
Inductive batch_trace (normpath : string -> string)
    (run : string -> string -> M nat)
    : list (string * string) -> state -> list nat -> state -> Prop :=
| trace_done st :
    batch_trace normpath run [] st [] st
| trace_returned a e rest st n st1 counts st' :
    run a e st = (Ok n, st1) ->
    batch_trace normpath run rest st1 counts st' ->
    batch_trace normpath run ((a, e) :: rest) st (n :: counts) st'
| trace_raised a e rest st ex st1 counts st' :
    run a e st = (Raise ex, st1) ->
    batch_trace normpath run rest
      (State (heap st1) (diffs st1 ++ [error_message normpath a e ex]))
      counts st' ->
    batch_trace normpath run ((a, e) :: rest) st (1%nat :: counts) st'.

(** ** Predicates used in the statements *)

(** A computation that leaves every frame as it found it, whether it
    returns or raises. *)
Definition keeps_heap {A} (m : M A) : Prop :=
  forall st, heap (snd (m st)) = heap st.

(** Row [i] may stand before row [j]. *)
Definition in_order (key : nat -> list value) (i j : nat) : Prop :=
  key_compare (key i) (key j) <> Gt.

(** A loader for which one file is unreadable. *)
Definition three_pairs_loader (file : string) : result dataset :=
  if String.eqb file "bad.parquet"
  then Raise (ValueError "not a parquet file")
  else Ok no_columns.

(** Whether two columns agree at row [i]; [None] when either has no
    such row. *)
Definition rows_agree (v1 v2 : list value) (i : nat) : option bool :=
  match nth_error v1 i, nth_error v2 i with
  | Some a, Some b => Some (agree a b)
  | _, _ => None
  end.

(** A computation that may change the objects at [ls] and no other. *)
Definition touches_only {A} (ls : list loc) (m : M A) : Prop :=
  forall st l, ~ In l ls -> heap (snd (m st)) !! l = heap st !! l.

(** A computation that does not read the log: from a log holding [l] it
    gives the result and the frames it gives from an empty log, and
    leaves [l] followed by what it writes from an empty log. *)
Definition log_independent {A} (m : M A) : Prop :=
  forall h l,
    m (State h l)
    = (fst (m (State h [])),
       State (heap (snd (m (State h [])))) (l ++ diffs (snd (m (State h []))))).

(** What the loop over the type-checked names records for one name:
    nothing, or the name with the two dtypes that differ. *)
Definition wrong_type_of (g r : dataset) (c : string)
    : list (string * dtype * dtype) :=
  match find_column c g, find_column c r with
  | Some a, Some b =>
      if dtype_eqb (col_dtype a) (col_dtype b) then []
      else [(c, col_dtype a, col_dtype b)]
  | _, _ => []
  end.

(** The line about the files that [failure] puts before its message:
    the hint for comparing by hand when both paths are given, else the
    one path that is given, else nothing. *)
Definition file_line (normpath : string -> string)
    (compare_with : string -> string -> string)
    (actual_path expected_path : option string) : list string :=
  match path_given actual_path, path_given expected_path with
  | true, true => [compare_with (normpath (default EmptyString actual_path))
                                (default EmptyString expected_path)]
  | _, true => ["Expected file " +:+ default EmptyString expected_path]
  | true, false => ["Actual file "
                    +:+ normpath (default EmptyString actual_path)]
  | false, false => []
  end.

(** Every column of the frame has as many cells as the frame has
    rows. *)
Definition well_formed (d : dataset) : Prop :=
  Forall (fun c => length (values c) = nrows d) d.

(** A computation that returns from every state. *)
Definition never_raises {A} (m : M A) : Prop :=
  forall st, exists a st', m st = (Ok a, st').

(** A flag that is not a function: it resolves by the column names
    alone. *)
Definition static (fl : flag) : Prop :=
  match fl with FFun _ => False | _ => True end.

(** Two frames with the same column names and dtypes, in the same
    order. *)
Definition same_header (d d' : dataset) : Prop :=
  Forall2 (fun a b => name a = name b /\ col_dtype a = col_dtype b) d d'.

(** A computation that reads nothing of the state: it gives one result
    and appends one list of lines, whatever the heap and the log. *)
Definition is_writer {A} (m : M A) : Prop :=
  exists res lines,
    forall st, m st = (res, State (heap st) (diffs st ++ lines)).

(** * Lemmas and theorems *)

Section Evaluations.

Variable normpath : string -> string.
Variable compare_with : string -> string -> string.

Let check := check_geodataframe normpath compare_with.

Example test_frames_ok_extra_check_off :
  check 0%nat 0%nat None None FNone FNone FNone FFalse FNone None None
        (initial [df1])
  = (Ok 0%nat, initial [df1]).
Proof. vm_compute. reflexivity. Qed.

Example test_frames_fail_precision_6 :
  check 0%nat 1%nat None None FNone FNone FNone FFalse FNone None (Some 6%nat)
        (initial [df1; df2])
  = (Ok 1%nat,
     State (heap_of [df1; df2])
       [ "Contents check failed."; "Column values differ: b";
         "From row 1: [1.000100, 2.000100, 3.000100, 4.000100, 5.000100] != [1.000200, 2.000200, 3.000200, 4.000200, 5.000200]" ]).
Proof. vm_compute. reflexivity. Qed.

(** C1.  The identity call of the repository's own test,
    [check_geodataframe(df1, df1)] with every flag left at its default,
    does not return [(0, [])]: resolving [check_extra_cols] against a
    frame that has columns gives a non-empty list, line 141 is reached
    and evaluating [ref_df] raises [NameError]. *)
Theorem identity_default_raises :
  check 0%nat 0%nat None None FNone FNone FNone FNone FNone None None
        (initial [df1])
  = (Raise (NameError "name 'ref_df' is not defined"), initial [df1]).
Proof. vm_compute. reflexivity. Qed.

(** C2.  On the frames of the repository's test of extra columns the
    call neither records the extra column nor returns: the column check
    raises [NameError] before any message is written. *)
Theorem extra_columns_raises :
  check_columns single colours FNone FNone FNone
  = Raise (NameError "name 'ref_df' is not defined")
  /\ check 0%nat 1%nat None None FNone FNone FNone FNone FNone None None
           (initial [single; colours])
     = (Raise (NameError "name 'ref_df' is not defined"),
        initial [single; colours]).
Proof. split; vm_compute; reflexivity. Qed.


(** C6.  Identical values and one extra column on the actual side: with
    the flags at their defaults the call raises instead of returning a
    failure count of 1, and with the extra-column check switched off it
    returns 0.  No call returns 1 on account of an extra column. *)
Theorem extra_column_never_fails_the_verdict :
  check 0%nat 1%nat None None FNone FNone FNone FNone FNone None None
        (initial [extra_column; one_column])
  = (Raise (NameError "name 'ref_df' is not defined"),
     initial [extra_column; one_column])
  /\ check 0%nat 1%nat None None FNone FNone FNone FFalse FNone None None
           (initial [extra_column; one_column])
     = (Ok 0%nat, initial [extra_column; one_column]).
Proof. split; vm_compute; reflexivity. Qed.

(** C8.  Sorting on a column that is missing from the actual frame: the
    frames are left in their order, but the diagnostic is not written to
    the log and the comparison does not complete; the call raises
    [TypeError] after the messages of the column check. *)
Theorem sort_on_missing_column_raises :
  check 0%nat 1%nat None None FNone FNone FNone FNone (FList ["a"]) None None
        (initial [no_columns; unsorted])
  = (Raise (TypeError "info() missing 1 required positional argument: 's'"),
     State (heap_of [no_columns; unsorted])
           [ "Column check failed."; "Missing columns: ['a']" ]).
Proof. vm_compute. reflexivity. Qed.

(** C9.  The fallback of the ordering explanation is reachable: with the
    type check switched off, two frames whose columns are in a different
    order get the explanation that the lists appear to be the same. *)
Theorem mysterious_ordering_is_reachable :
  check 0%nat 1%nat None None FNone FFalse FNone FFalse FNone None None
        (initial [cols_ab; cols_ba])
  = (Ok 1%nat,
     State (heap_of [cols_ab; cols_ba])
           [ "Column check failed.";
             "Wrong column ordering: mysterious difference, they appear to be the same!" ]).
Proof. vm_compute. reflexivity. Qed.

End Evaluations.

(** ** The null implementation *)

Lemma getattribute_lambda (name : string) :
  name <> "method"%string -> name <> "__getattr__"%string ->
  mem name Null.object_attributes = false ->
  Null.getattribute name = Null.Lambda name.
Proof.
  intros Hm Hg Ho. unfold Null.getattribute.
  apply String.eqb_neq in Hm. apply String.eqb_neq in Hg.
  now rewrite Hm, Hg, Ho.
Qed.




(** ** Counterexamples on concrete frames *)


(** C4, as stated, fails: the sort is done on the caller's two frames
    themselves.  After a call with [sortby=['a']] on two frames holding
    the rows 2, 1, both of the caller's frames hold the rows 1, 2. *)
Lemma sort_mutates_the_callers_frames :
  let st := initial [unsorted; unsorted] in
  let out := check_geodataframe plain_normpath plain_compare_with 0%nat 1%nat
               None None FNone FNone FNone FFalse (FList ["a"]) None None st in
  out = (Ok 0%nat, initial [sorted; sorted])
  /\ heap (snd out) !!! 0%nat <> heap st !!! 0%nat
  /\ heap (snd out) !!! 1%nat <> heap st !!! 1%nat.
Proof.
  vm_compute. split; [reflexivity|]. split; discriminate.
Qed.

(** ** The batch comparator *)

Section Batch.

Variable normpath : string -> string.
Variable compare_with : string -> string -> string.
Variable loader : option (string -> result dataset).
Variables check_data check_types check_order sortby : flag.
Variable condition : option (dataset -> list bool).

Let run (a e : string) : M nat :=
  check_parquet_file normpath compare_with a e loader
    check_data check_types check_order condition sortby (Some 6%nat).

Let loop := fun pairs =>
  check_parquet_files_loop normpath compare_with pairs loader
    check_data check_types check_order condition sortby.

Lemma check_parquet_files_loop_trace (pairs : list (string * string)) :
  forall (failures : nat) (st : state),
  exists counts st',
    loop pairs failures st = (Ok (failures + list_sum counts)%nat, st')
    /\ batch_trace normpath run pairs st counts st'.
Proof.
  induction pairs as [|[a e] rest IH]; intros failures st.
  - exists [], st. split; [|constructor].
    unfold loop; simpl. unfold ret. now rewrite Nat.add_0_r.
  - unfold loop; simpl. unfold bind at 1, catch.
    fold (run a e). destruct (run a e st) as [[n|ex] st1] eqn:Hrun.
    + destruct (IH (failures + n)%nat st1) as (counts & st' & Hloop & Htr).
      exists (n :: counts), st'. split.
      * unfold loop in Hloop. rewrite Hloop. simpl. do 2 f_equal. lia.
      * eapply trace_returned; eauto.
    + unfold bind, info, ret. simpl.
      destruct (IH (failures + 1)%nat
                  (State (heap st1)
                     (diffs st1 ++ [error_message normpath a e ex])))
        as (counts & st' & Hloop & Htr).
      exists (1%nat :: counts), st'. split.
      * unfold loop in Hloop. rewrite Hloop. simpl. do 2 f_equal. lia.
      * eapply trace_raised; eauto.
Qed.


End Batch.

(** ** What a call does to the heap *)

Lemma bind_Ok_inv {A B} (m : M A) (k : A -> M B) st b st' :
  bind m k st = (Ok b, st') ->
  exists a st1, m st = (Ok a, st1) /\ k a st1 = (Ok b, st').
Proof.
  unfold bind. destruct (m st) as [[a|e] st1]; [eauto | discriminate].
Qed.

Create HintDb keeps.

Lemma keeps_ret {A} (a : A) : keeps_heap (ret a).
Proof. now intros st. Qed.

Lemma keeps_raise {A} (e : exn) : keeps_heap (@raise A e).
Proof. now intros st. Qed.

Lemma keeps_lift {A} (r : result A) : keeps_heap (lift r).
Proof. now intros st. Qed.

Lemma keeps_load l : keeps_heap (load l).
Proof. now intros st. Qed.

Lemma keeps_info s : keeps_heap (info s).
Proof. now intros st. Qed.

Lemma keeps_bind {A B} (m : M A) (k : A -> M B) :
  keeps_heap m -> (forall a, keeps_heap (k a)) -> keeps_heap (bind m k).
Proof.
  intros Hm Hk st. unfold bind. specialize (Hm st).
  destruct (m st) as [[a|e] st1]; simpl in *; [|exact Hm].
  now rewrite Hk.
Qed.

Lemma keeps_if {A} (b : bool) (m1 m2 : M A) :
  keeps_heap m1 -> keeps_heap m2 -> keeps_heap (if b then m1 else m2).
Proof. now destruct b. Qed.

#[local] Hint Resolve keeps_ret keeps_raise keeps_lift keeps_load keeps_info
  keeps_bind keeps_if : keeps.

Section Frame.

Variable normpath : string -> string.
Variable compare_with : string -> string -> string.

Lemma keeps_failure s ap ep : keeps_heap (failure normpath compare_with s ap ep).
Proof. unfold failure. auto 10 with keeps. Qed.

Lemma keeps_info_wrong_types wt : keeps_heap (info_wrong_types wt).
Proof.
  induction wt as [|[[c dt] rdt] rest IH]; simpl; auto with keeps.
Qed.

#[local] Hint Resolve keeps_failure keeps_info_wrong_types : keeps.

Lemma keeps_report_columns g r ct s ap ep :
  keeps_heap (report_columns normpath compare_with g r ct s ap ep).
Proof. unfold report_columns. auto 12 with keeps. Qed.

Lemma keeps_report_differences a b cs p :
  keeps_heap (report_differences a b cs p).
Proof.
  induction cs as [|c cs IH]; simpl; auto 12 with keeps.
Qed.

#[local] Hint Resolve keeps_report_columns keeps_report_differences : keeps.

Lemma keeps_check_contents g r cd missing p ap ep :
  keeps_heap (check_contents normpath compare_with g r cd missing p ap ep).
Proof.
  unfold check_contents.
  repeat (first [ apply keeps_if | apply keeps_bind; [|intros ?] ]);
    auto 12 with keeps.
Qed.

(** What the sort leaves behind when it completes. *)
Lemma sort_phase_Ok gdf ref_gdf r sortby missing st st1 :
  truthy sortby = true ->
  sort_phase gdf ref_gdf r sortby missing st = (Ok tt, st1) ->
  let by_ := resolve_option_flag sortby r in
  existsb (fun c => mem c by_) missing = false
  /\ exists g' r',
       sort_values by_ (heap st !!! gdf) = Ok g'
       /\ sort_values by_ (<[gdf := g']> (heap st) !!! ref_gdf) = Ok r'
       /\ heap st1 = <[ref_gdf := r']> (<[gdf := g']> (heap st))
       /\ diffs st1 = diffs st.
Proof.
  intros Ht H. unfold sort_phase in H. rewrite Ht in H. simpl.
  destruct (existsb _ missing); [discriminate|]. split; [reflexivity|].
  unfold sort_in_place, bind, load, lift, store in H. simpl in H.
  destruct (sort_values _ (heap st !!! gdf)) as [g'|e] eqn:Hg; [|discriminate].
  simpl in H.
  destruct (sort_values _ (<[gdf := g']> (heap st) !!! ref_gdf)) as [r'|e]
    eqn:Hr; [|discriminate].
  inversion H; subst; clear H. exists g', r'. simpl. auto.
Qed.

(** Without a sort the heap is as it was. *)
Lemma keeps_sort_phase_off gdf ref_gdf r sortby missing :
  truthy sortby = false ->
  keeps_heap (sort_phase gdf ref_gdf r sortby missing).
Proof. intros Ht. unfold sort_phase. rewrite Ht. auto with keeps. Qed.

End Frame.

Section InPlace.

Variable normpath : string -> string.
Variable compare_with : string -> string -> string.

Let check := check_geodataframe normpath compare_with.

Ltac heap_of_run K st H :=
  let X := fresh "Hheap" in
  pose proof (K st) as X; rewrite H in X; simpl in X.

(** C4, as the code has it.  When the sort flag is set and the call
    returns, the sort was done in place on the caller's two frames: the
    actual frame now holds what [sort_values] makes of it, then the
    expected frame what [sort_values] makes of it, both by the field set
    resolved against the expected frame; no other object changed. *)
Theorem sort_is_done_in_place (gdf ref_gdf : loc)
    (actual_path expected_path : option string)
    (check_data check_types check_order check_extra_cols sortby : flag)
    (condition : option (dataset -> list bool)) (precision : option nat)
    (st st' : state) (n : nat) :
  truthy sortby = true ->
  check gdf ref_gdf actual_path expected_path check_data check_types
        check_order check_extra_cols sortby condition precision st
  = (Ok n, st') ->
  let by_ := resolve_option_flag sortby (heap st !!! ref_gdf) in
  exists g' r',
    sort_values by_ (heap st !!! gdf) = Ok g'
    /\ sort_values by_ (<[gdf := g']> (heap st) !!! ref_gdf) = Ok r'
    /\ heap st' = <[ref_gdf := r']> (<[gdf := g']> (heap st)).
Proof.
  intros Ht H. unfold check, check_geodataframe in H.
  apply bind_Ok_inv in H as (g & s1 & H1 & H).
  unfold load in H1; inversion H1; subst g s1; clear H1.
  apply bind_Ok_inv in H as (r & s1 & H1 & H).
  unfold load in H1; inversion H1; subst r s1; clear H1.
  apply bind_Ok_inv in H as (s & s1 & H1 & H).
  unfold lift in H1; inversion H1 as [[Hs Hst]]; subst s1; clear H1.
  apply bind_Ok_inv in H as ([] & s2 & H2 & H).
  heap_of_run (keeps_report_columns normpath compare_with
                 (heap st !!! gdf) (heap st !!! ref_gdf)
                 (resolve_option_flag check_types (heap st !!! ref_gdf))
                 s actual_path expected_path) st H2.
  apply bind_Ok_inv in H as ([] & s3 & H3 & H).
  apply sort_phase_Ok in H3 as (_ & g' & r' & Hg & Hr & Hh & _); [|exact Ht].
  rewrite Hheap in Hg, Hr, Hh.
  apply bind_Ok_inv in H as (g1 & s4 & H4 & H).
  unfold load in H4; inversion H4; subst g1 s4; clear H4.
  apply bind_Ok_inv in H as (r1 & s4 & H4 & H).
  unfold load in H4; inversion H4; subst r1 s4; clear H4.
  apply bind_Ok_inv in H as (g2 & s4 & H4 & H).
  unfold lift in H4; inversion H4 as [[Hg2 Hst4]]; subst s4; clear H4.
  apply bind_Ok_inv in H as (r2 & s4 & H4 & H).
  unfold lift in H4; inversion H4 as [[Hr2 Hst4]]; subst s4; clear H4.
  apply bind_Ok_inv in H as (same & s5 & H5 & H).
  heap_of_run (keeps_check_contents normpath compare_with g2 r2 check_data
                 (missing_cols s) (default 6%nat precision)
                 actual_path expected_path) s3 H5.
  unfold ret in H; inversion H; subst; clear H.
  exists g', r'. repeat split; [exact Hg | exact Hr |].
  now rewrite Hheap0, Hh.
Qed.

(** Without a sort, the call leaves every frame as it was, whether it
    returns or raises. *)
Lemma check_geodataframe_keeps_heap_without_sort (gdf ref_gdf : loc)
    (actual_path expected_path : option string)
    (check_data check_types check_order check_extra_cols sortby : flag)
    (condition : option (dataset -> list bool)) (precision : option nat) :
  truthy sortby = false ->
  keeps_heap (check gdf ref_gdf actual_path expected_path check_data
                check_types check_order check_extra_cols sortby condition
                precision).
Proof.
  intros Ht. unfold check, check_geodataframe.
  repeat (apply keeps_bind; [|intros ?]);
    auto using keeps_report_columns, keeps_check_contents,
               keeps_sort_phase_off with keeps.
Qed.

End InPlace.

Lemma sort_is_done_in_place_witness :
  exists g' r',
    sort_values ["a"] unsorted = Ok g'
    /\ sort_values ["a"] (<[0%nat := g']> (heap_of [unsorted; unsorted]) !!! 1%nat)
       = Ok r'
    /\ heap (initial [sorted; sorted])
       = <[1%nat := r']> (<[0%nat := g']> (heap_of [unsorted; unsorted])).
Proof.
  apply (sort_is_done_in_place plain_normpath plain_compare_with 0%nat 1%nat
           None None FNone FNone FNone FFalse (FList ["a"]) None None
           (initial [unsorted; unsorted]) (initial [sorted; sorted]) 0%nat).
  - reflexivity.
  - vm_compute. reflexivity.
Defined.

(** ** Equality of cells and columns *)

Lemma agree_refl (v : value) : agree v v = true.
Proof.
  destruct v as [|z|q|s|b]; unfold agree, py_eq; simpl;
    rewrite ?String.eqb_refl; try reflexivity;
    (replace (Qeq_bool _ _) with true; [reflexivity|]);
    symmetry; apply Qeq_bool_iff; reflexivity.
Qed.

Lemma differ_negb_agree (v1 v2 : value) : differ v1 v2 = negb (agree v1 v2).
Proof. unfold differ, agree, py_ne. now rewrite negb_orb. Qed.

Lemma forallb2_refl {A} (f : A -> A -> bool) (l : list A) :
  (forall x, f x x = true) -> forallb2 f l l = true.
Proof. intros Hf. induction l as [|x l IH]; simpl; [|rewrite Hf, IH]; auto. Qed.

Lemma forallb2_app {A B} (f : A -> B -> bool) l1 l1' l2 l2' :
  length l1 = length l1' ->
  forallb2 f (l1 ++ l2) (l1' ++ l2') = forallb2 f l1 l1' && forallb2 f l2 l2'.
Proof.
  revert l1'. induction l1 as [|x l1 IH]; intros [|y l1'] Hlen;
    simpl in *; try discriminate; [reflexivity|].
  rewrite IH by lia. now rewrite andb_assoc.
Qed.

Lemma forallb2_length {A B} (f : A -> B -> bool) l1 l2 :
  forallb2 f l1 l2 = true -> length l1 = length l2.
Proof.
  revert l2. induction l1 as [|x l1 IH]; intros [|y l2] H; simpl in *;
    try discriminate; [reflexivity|].
  apply andb_prop in H as [_ H]. f_equal. auto.
Qed.

Lemma dtype_eqb_refl (d : dtype) : dtype_eqb d d = true.
Proof. now destruct d. Qed.

Lemma series_equals_refl (c : column) : series_equals c c = true.
Proof.
  unfold series_equals. rewrite dtype_eqb_refl. simpl.
  apply forallb2_refl, agree_refl.
Qed.

Lemma names_eqb_refl (l : list string) : names_eqb l l = true.
Proof. induction l as [|c l IH]; simpl; [|rewrite String.eqb_refl]; auto. Qed.

(** ** Totality of the difference sampler on columns of equal length *)

Lemma series_get_lt (vs : list value) (i : nat) :
  (i < length vs)%nat -> exists v, series_get vs i = Ok v /\ nth_error vs i = Some v.
Proof.
  intros Hi. unfold series_get.
  destruct (nth_error vs i) as [v|] eqn:E; [eauto|].
  apply nth_error_None in E. lia.
Qed.

Lemma rmapM_total {A B} (f : A -> result B) (l : list A) :
  (forall x, In x l -> exists y, f x = Ok y) ->
  exists ys, rmapM f l = Ok ys /\ length ys = length l.
Proof.
  induction l as [|a l IH]; intros Hf; simpl; [eauto|].
  destruct (Hf a) as [b Hb]; [now left|]. rewrite Hb. simpl.
  destruct IH as (bs & Hbs & Hlen); [intros; apply Hf; now right|].
  rewrite Hbs. simpl. exists (b :: bs). simpl. auto.
Qed.

Lemma rmapM_length {A B} (f : A -> result B) (l : list A) (ys : list B) :
  rmapM f l = Ok ys -> length ys = length l.
Proof.
  revert ys. induction l as [|a l IH]; intros ys H; simpl in H.
  - now inversion H.
  - destruct (f a) as [b|e]; [|discriminate]. simpl in H.
    destruct (rmapM f l) as [bs|e]; [|discriminate]. simpl in H.
    inversion H; subst. simpl. f_equal. auto.
Qed.

Lemma sample_total (vs : list value) (start stop : nat) :
  (stop <= length vs)%nat -> exists s, sample vs start stop = Ok s.
Proof.
  intros Hs. unfold sample.
  edestruct (rmapM_total
               (fun i => (v <- series_get vs i ;;
                          Ok (if isnull v then VNull else v))%res)
               (seq start (stop - start))) as (s & Hs' & _); [|eauto].
  intros i Hi. apply in_seq in Hi.
  destruct (series_get_lt vs i) as (v & Hv & _); [lia|].
  rewrite Hv. simpl. eauto.
Qed.

(** The test of line 260 compares the length of the sample with the
    length of the range it was drawn from: it never holds, and the
    rendered sample is the joined cells alone. *)
Lemma sample_format_is_the_joined_sample (vals : column)
    (start stop p : nat) (r : string) :
  sample_format vals start stop p = Ok r ->
  exists s, sample (values vals) start stop = Ok s
            /\ r = join ", " (map (format_cell (col_dtype vals) p) s).
Proof.
  unfold sample_format. intros H.
  destruct (sample (values vals) start stop) as [s|e] eqn:E; [|discriminate].
  simpl in H. exists s. split; [reflexivity|].
  unfold sample in E. apply rmapM_length in E. rewrite length_seq in E.
  destruct (Z.ltb_spec (Z.of_nat (length s)) (Z.of_nat stop - Z.of_nat start));
    [lia|]. now inversion H.
Qed.

Lemma sample_format_total (vals : column) (start stop p : nat) :
  (stop <= length (values vals))%nat ->
  exists r, sample_format vals start stop p = Ok r.
Proof.
  intros Hs. unfold sample_format.
  destruct (sample_total (values vals) start stop Hs) as [s E].
  rewrite E. simpl. eauto.
Qed.

Lemma ndifferences_loop_total (v1 v2 : list value) (range : list nat)
    (stop : nat) :
  (forall i, In i range -> (i < length v1)%nat /\ (i < length v2)%nat) ->
  exists k, ndifferences_loop v1 v2 range stop = Ok k
            /\ (In k range \/ k = stop).
Proof.
  induction range as [|i range IH]; intros Hr; simpl; [eauto|].
  destruct (Hr i) as [H1 H2]; [now left|].
  destruct (series_get_lt v1 i H1) as (x1 & E1 & _).
  destruct (series_get_lt v2 i H2) as (x2 & E2 & _).
  rewrite E1, E2. simpl. destruct (agree x1 x2); [eauto|].
  destruct IH as (k & Hk & Hin); [intros; apply Hr; now right|].
  exists k. tauto.
Qed.

(** The run that is displayed starts where it was asked to and ends at
    most [limit] rows further, and within the column. *)
Lemma ndifferences_total (v1 v2 : list value) (start limit : nat) :
  length v1 = length v2 -> (start <= length v1)%nat ->
  exists k, ndifferences v1 v2 start limit = Ok k
            /\ (start <= k)%nat /\ (k <= start + limit)%nat
            /\ (k <= length v1)%nat.
Proof.
  intros Hlen Hstart. unfold ndifferences.
  set (stop := Nat.min (start + limit) (length v1)).
  destruct (ndifferences_loop_total v1 v2 (seq start (stop - start)) stop)
    as (k & Hk & Hin).
  - intros i Hi. apply in_seq in Hi. subst stop. lia.
  - exists k. split; [exact Hk|].
    destruct Hin as [Hin| ->]; [apply in_seq in Hin|]; subst stop; lia.
Qed.

Lemma skipn_nth_error {A} (l : list A) (i : nat) (x : A) :
  nth_error l i = Some x -> skipn i l = x :: skipn (S i) l.
Proof.
  revert i. induction l as [|y l IH]; intros [|i] H; simpl in *;
    try discriminate.
  - now inversion H.
  - now apply IH.
Qed.

Lemma differences_loop_finds (a b : column) (p : nat) (rest : list value) :
  length (values a) = length (values b) ->
  forall i,
  (i + length rest)%nat = length (values a) ->
  forallb2 agree rest (skipn i (values b)) = false ->
  exists j s1 s2,
    differences_loop a b p rest i
    = Ok ("From row " +:+ str_nat (j + 1) +:+ ": [" +:+ s1 +:+ "] != ["
          +:+ s2 +:+ "]").
Proof.
  intros Hlen. induction rest as [|val rest IH]; intros i Hi Hne.
  - simpl in Hi. rewrite skipn_all2 in Hne by lia. discriminate.
  - simpl in Hi.
    destruct (series_get_lt (values b) i) as (refval & Hget & Hnth); [lia|].
    simpl. rewrite Hget. simpl.
    rewrite (skipn_nth_error _ _ _ Hnth) in Hne. simpl in Hne.
    rewrite differ_negb_agree.
    destruct (agree val refval); simpl in *.
    + apply IH; [lia | exact Hne].
    + destruct (ndifferences_total (values a) (values b) i 10 Hlen)
        as (k & Hk & _ & _ & Hkl); [lia|].
      rewrite Hk. simpl.
      destruct (sample_format_total a i k p Hkl) as [s1 E1].
      destruct (sample_format_total b i k p) as [s2 E2]; [lia|].
      rewrite E1, E2. simpl. eauto.
Qed.

(** The second fallback is out of reach where the comparison calls the
    sampler: two columns of one dtype and one length that
    [Series.equals] tells apart have a row at which they differ, and the
    summary starts from it. *)
Lemma differences_finds_a_row (a b : column) (p : nat) :
  length (values a) = length (values b) ->
  col_dtype a = col_dtype b ->
  series_equals a b = false ->
  exists j s1 s2,
    differences a b p
    = Ok ("From row " +:+ str_nat (j + 1) +:+ ": [" +:+ s1 +:+ "] != ["
          +:+ s2 +:+ "]").
Proof.
  intros Hlen Hdt Heq. unfold differences.
  apply differences_loop_finds; [exact Hlen | reflexivity |].
  unfold series_equals in Heq. rewrite Hdt, dtype_eqb_refl in Heq.
  exact Heq.
Qed.

(** ** Looking columns up by name *)

Lemma mem_In (c : string) (l : list string) : mem c l = true <-> In c l.
Proof.
  unfold mem. rewrite existsb_exists. split.
  - intros (x & Hin & Heq). apply String.eqb_eq in Heq. now subst.
  - intros Hin. exists c. split; [exact Hin | apply String.eqb_refl].
Qed.

Lemma mem_not_In (c : string) (l : list string) : mem c l = false <-> ~ In c l.
Proof.
  rewrite <- mem_In. destruct (mem c l); split; intros; congruence.
Qed.

Lemma find_column_app_l (c : string) (d1 d2 : dataset) :
  In c (columns d1) -> find_column c (d1 ++ d2) = find_column c d1.
Proof.
  induction d1 as [|x d1 IH]; simpl; [tauto|]. intros [Hx|Hin].
  - subst c. now rewrite String.eqb_refl.
  - destruct (String.eqb c (name x)); auto.
Qed.

Lemma find_column_app_r (c : string) (d1 d2 : dataset) :
  ~ In c (columns d1) -> find_column c (d1 ++ d2) = find_column c d2.
Proof.
  induction d1 as [|x d1 IH]; simpl; [tauto|]. intros Hn.
  destruct (String.eqb_spec c (name x)) as [->|Hne]; [tauto|].
  apply IH. tauto.
Qed.

Lemma find_column_In (c : string) (d : dataset) :
  In c (columns d) -> exists x, find_column c d = Some x /\ name x = c.
Proof.
  induction d as [|y d IH]; simpl; [tauto|]. intros Hin.
  destruct (String.eqb_spec c (name y)) as [->|Hne]; [eauto|].
  destruct Hin as [Hy|Hin]; [congruence | auto].
Qed.

Lemma getitem_here (pre post : dataset) (x : column) :
  ~ In (name x) (columns pre) ->
  getitem (pre ++ x :: post) (name x) = Ok x.
Proof.
  intros Hn. unfold getitem. rewrite find_column_app_r by exact Hn.
  simpl. now rewrite String.eqb_refl.
Qed.

(** Projecting a frame on its own columns gives the frame back, when no
    two columns share a name. *)
Lemma project_suffix (pre d : dataset) :
  List.NoDup (columns (pre ++ d)) ->
  rmapM (getitem (pre ++ d)) (columns d) = Ok d.
Proof.
  revert pre. induction d as [|x d IH]; intros pre Hnd; simpl; [reflexivity|].
  assert (Hx : ~ In (name x) (columns pre)).
  { unfold columns in *. rewrite map_app in Hnd. simpl in Hnd.
    apply NoDup_remove_2 in Hnd. rewrite in_app_iff in Hnd. tauto. }
  rewrite (getitem_here pre d x Hx). simpl.
  replace (pre ++ x :: d) with ((pre ++ [x]) ++ d) in *
    by (now rewrite <- app_assoc).
  rewrite IH by exact Hnd. reflexivity.
Qed.

Lemma project_self (d : dataset) :
  List.NoDup (columns d) -> project d (columns d) = Ok d.
Proof. intros Hnd. apply (project_suffix [] d Hnd). Qed.

Lemma filter_not_mem_nil (l : list string) :
  List.filter (fun c => negb (mem c [])) l = l.
Proof. induction l as [|c l IH]; simpl; [reflexivity | f_equal; exact IH]. Qed.

Lemma find_column_Some_In (c : string) (d : dataset) (x : column) :
  find_column c d = Some x -> In c (columns d).
Proof.
  induction d as [|y d IH]; simpl; [discriminate|].
  destruct (String.eqb_spec c (name y)) as [->|Hne]; [now left|].
  intros H. right. auto.
Qed.

Lemma check_types_loop_agreeing (g r : dataset) (cs : list string) :
  (forall n, In n cs ->
     exists a b, find_column n g = Some a /\ find_column n r = Some b
                 /\ col_dtype a = col_dtype b) ->
  forall m w, check_types_loop g r cs m w = Ok (m, w).
Proof.
  induction cs as [|n cs IH]; intros Hcs m w; simpl; [reflexivity|].
  destruct (Hcs n) as (a & b & Ha & Hb & Hdt); [now left|].
  apply find_column_Some_In in Ha as Hin. apply mem_In in Hin.
  rewrite Hin. simpl. unfold getitem. rewrite Ha, Hb. simpl.
  rewrite Hdt, dtype_eqb_refl. simpl.
  apply IH. intros; apply Hcs; now right.
Qed.

(** ** Two frames that are identical except for one column *)

Section OneColumnApart.

Variables (pre post : dataset) (c : string) (dt : dtype).
Variables (vs1 vs2 : list value).

Let x1 := Column c dt vs1.
Let x2 := Column c dt vs2.
Let g := pre ++ x1 :: post.
Let r := pre ++ x2 :: post.

Hypothesis names_differ : List.NoDup (columns g).

Lemma columns_apart : columns r = columns g.
Proof. unfold g, r, columns. now rewrite !map_app. Qed.

Lemma nrows_apart : length vs1 = length vs2 -> nrows g = nrows r.
Proof. clear names_differ. unfold g, r. destruct pre; simpl; auto. Qed.

Lemma c_not_elsewhere : ~ In c (columns pre) /\ ~ In c (columns post).
Proof.
  pose proof names_differ as H. unfold g, columns in H.
  rewrite map_app in H. simpl in H. apply NoDup_remove_2 in H.
  rewrite in_app_iff in H. unfold columns. tauto.
Qed.

Lemma find_column_apart (n : string) :
  In n (columns g) ->
  exists a b,
    find_column n g = Some a /\ find_column n r = Some b
    /\ col_dtype a = col_dtype b
    /\ (n <> c -> a = b)
    /\ (n = c -> a = x1 /\ b = x2).
Proof.
  intros Hin. destruct c_not_elsewhere as [Hpre Hpost].
  destruct (in_dec string_dec n (columns pre)) as [Hn|Hn].
  - unfold g, r. rewrite !find_column_app_l by exact Hn.
    destruct (find_column_In n pre Hn) as (a & Ha & _).
    exists a, a. do 3 (split; [auto|]). split; [auto | intros ->; tauto].
  - unfold g, r. rewrite !find_column_app_r by exact Hn. simpl.
    destruct (String.eqb_spec n c) as [->|Hne].
    + exists x1, x2. do 3 (split; [auto|]). split; [tauto | auto].
    + assert (Hp : In n (columns post)).
      { unfold g, columns in Hin. rewrite map_app, in_app_iff in Hin.
        simpl in Hin. unfold columns in Hn. destruct Hin as [|[|]];
          [tauto | congruence | assumption]. }
      destruct (find_column_In n post Hp) as (a & Ha & _).
      exists a, a. do 3 (split; [auto|]). split; [auto | tauto].
Qed.

Lemma check_columns_apart :
  check_columns g r FNone FNone FFalse = Ok (Schema [] [] [] false).
Proof.
  unfold check_columns. simpl resolve_option_flag.
  rewrite check_types_loop_agreeing.
  - simpl. rewrite columns_apart, names_eqb_refl. reflexivity.
  - intros n Hn. rewrite columns_apart in Hn.
    destruct (find_column_apart n Hn) as (a & b & Ha & Hb & Hdt & _).
    eauto.
Qed.

Lemma project_apart :
  project g (columns r) = Ok g /\ project r (columns r) = Ok r.
Proof.
  split.
  - rewrite columns_apart. now apply project_self.
  - apply project_self. rewrite columns_apart. exact names_differ.
Qed.

Lemma frame_equals_apart :
  frame_equals g r = forallb2 agree vs1 vs2.
Proof.
  unfold frame_equals, g, r. rewrite forallb2_app by reflexivity. simpl.
  rewrite !forallb2_refl
    by (intros y; now rewrite String.eqb_refl, series_equals_refl).
  rewrite String.eqb_refl. unfold series_equals. simpl.
  rewrite dtype_eqb_refl. simpl. now rewrite andb_true_r.
Qed.

(** The lines of the content check: one pair for the column that
    differs, none for the others. *)
Lemma report_differences_apart (p : nat) (d : string) :
  series_equals x1 x2 = false ->
  differences x1 x2 p = Ok d ->
  forall cs, (forall n, In n cs -> In n (columns g)) -> List.NoDup cs ->
  forall st,
    report_differences g r cs p st
    = (Ok tt,
       if mem c cs
       then State (heap st) (diffs st ++ ["Column values differ: " +:+ c; d])
       else st).
Proof.
  intros Hne Hd. induction cs as [|n cs IH]; intros Hcs Hnd st.
  - reflexivity.
  - destruct (find_column_apart n) as (a & b & Ha & Hb & _ & Hsame & Hc);
      [apply Hcs; now left|].
    inversion Hnd as [|? ? Hn Hnd']; subst.
    assert (IH' := IH (fun m Hm => Hcs m (or_intror Hm)) Hnd').
    simpl report_differences. unfold bind at 1, lift, getitem.
    rewrite Ha. simpl. unfold bind at 1. rewrite Hb. simpl.
    unfold mem. simpl existsb. fold (mem c cs).
    destruct (String.eqb_spec c n) as [<-|Hcn].
    + destruct Hc as [-> ->]; [reflexivity|]. rewrite Hne. simpl.
      unfold bind at 1. unfold bind at 1. rewrite Hd. simpl.
      unfold bind, info. simpl. rewrite IH'. simpl.
      apply mem_not_In in Hn. rewrite Hn.
      now rewrite <- app_assoc.
    + rewrite Hsame by congruence. rewrite series_equals_refl. simpl.
      unfold bind, ret. simpl. apply IH'.
Qed.

End OneColumnApart.

(** ** Rounding decides the content check *)

Lemma bind_load {B} (l : loc) (k : dataset -> M B) (st : state) :
  bind (load l) k st = k (heap st !!! l) st.
Proof. reflexivity. Qed.

Lemma bind_lift_Ok {A B} (a : A) (k : A -> M B) (st : state) :
  bind (lift (Ok a)) k st = k a st.
Proof. reflexivity. Qed.

Lemma bind_ret {A B} (a : A) (k : A -> M B) (st : state) :
  bind (ret a) k st = k a st.
Proof. reflexivity. Qed.

Lemma columns_round_frame (p : nat) (d : dataset) :
  columns (round_frame p d) = columns d.
Proof.
  unfold columns, round_frame. rewrite map_map. apply map_ext.
  intros y. unfold round_column. now destruct (col_dtype y).
Qed.

Lemma round_frame_apart (p : nat) (pre post : dataset) (c : string)
    (vs : list value) :
  round_frame p (pre ++ Column c float64 vs :: post)
  = round_frame p pre ++ Column c float64 (map (round_value p) vs)
      :: round_frame p post.
Proof. unfold round_frame. now rewrite map_app. Qed.

Section Precision.

Variable normpath : string -> string.
Variable compare_with : string -> string -> string.
Variables (pre post : dataset) (c : string) (vs1 vs2 : list value).
Variable p : nat.

Let g := pre ++ Column c float64 vs1 :: post.
Let r := pre ++ Column c float64 vs2 :: post.
Let x1 := Column c float64 (map (round_value p) vs1).
Let x2 := Column c float64 (map (round_value p) vs2).

Hypothesis names_differ : List.NoDup (columns g).
Hypothesis same_length : length vs1 = length vs2.

Lemma check_contents_apart (st : state) :
  (series_equals x1 x2 = true
   /\ check_contents normpath compare_with g r FNone [] p None None st
      = (Ok true, st))
  \/ (series_equals x1 x2 = false
      /\ exists d,
           differences x1 x2 p = Ok d
           /\ check_contents normpath compare_with g r FNone [] p None None st
              = (Ok false,
                 State (heap st)
                   (diffs st ++ [ "Contents check failed.";
                                  "Column values differ: " +:+ c; d ]))).
Proof.
  assert (Hnd' : List.NoDup
            (columns (round_frame p pre ++ x1 :: round_frame p post))).
  { unfold x1. rewrite <- round_frame_apart, columns_round_frame.
    exact names_differ. }
  assert (Hcontents :
    check_contents normpath compare_with g r FNone [] p None None st
    = (let rounded := round_frame p g in
       let ref_rounded := round_frame p r in
       let same := frame_equals rounded ref_rounded in
       bind (if negb same
             then bind (failure normpath compare_with
                          "Contents check failed." None None)
                    (fun _ => report_differences rounded ref_rounded
                                (columns ref_rounded) p)
             else ret tt)
            (fun _ => ret same)) st).
  { unfold check_contents.
    assert (Hn : nrows g = nrows r)
      by exact (nrows_apart pre post c float64 vs1 vs2 same_length).
    rewrite Hn, Nat.eqb_refl. simpl negb. cbv iota.
    change (resolve_option_flag FNone r) with (columns r).
    assert (Hne : nonempty (columns r) = true).
    { unfold r, columns. rewrite map_app. now destruct (map name pre). }
    rewrite Hne, filter_not_mem_nil.
    assert (Hpg : project g (columns r) = Ok g)
      by exact (proj1 (project_apart pre post c float64 vs1 vs2 names_differ)).
    assert (Hpr : project r (columns r) = Ok r)
      by exact (proj2 (project_apart pre post c float64 vs1 vs2 names_differ)).
    rewrite Hpg, Hpr. reflexivity. }
  rewrite Hcontents. clear Hcontents. cbv zeta.
  unfold g, r, x1, x2 in *. rewrite !round_frame_apart.
  rewrite (frame_equals_apart (round_frame p pre) (round_frame p post)
             c float64).
  set (y1 := Column c float64 (map (round_value p) vs1)) in *.
  set (y2 := Column c float64 (map (round_value p) vs2)) in *.
  change (forallb2 agree (map (round_value p) vs1) (map (round_value p) vs2))
    with (series_equals y1 y2).
  destruct (series_equals y1 y2) eqn:Heq.
  - left. split; reflexivity.
  - right. split; [reflexivity|].
    destruct (differences_finds_a_row y1 y2 p) as (j & s1 & s2 & Hd);
      [simpl; now rewrite !length_map | reflexivity | exact Heq |].
    eexists. split; [exact Hd|].
    simpl negb. cbv iota. unfold bind at 1. unfold bind at 1.
    unfold failure. simpl path_given. simpl andb. cbv iota.
    unfold bind at 1. unfold ret at 1. unfold info at 1.
    rewrite (report_differences_apart (round_frame p pre) (round_frame p post)
               c float64 _ _ Hnd' p _ Heq Hd).
    + assert (Hm : mem c (columns (round_frame p pre ++ y2
                                    :: round_frame p post)) = true).
      { apply mem_In. unfold columns. rewrite map_app, in_app_iff.
        right. now left. }
      rewrite Hm. simpl. rewrite <- app_assoc. reflexivity.
    + intros n Hn. revert Hn. unfold columns. rewrite !map_app. auto.
    + revert Hnd'. unfold columns. rewrite !map_app. auto.
Qed.

End Precision.

Lemma report_columns_clean (normpath : string -> string)
    (compare_with : string -> string -> string) (g r : dataset)
    (check_types : list string) (actual_path expected_path : option string) :
  report_columns normpath compare_with g r check_types
    (Schema [] [] [] false) actual_path expected_path
  = ret tt.
Proof. reflexivity. Qed.



(** ** The extra-column check *)

(** No column check that completes has recorded an extra column: it
    completes only when the flag resolved to no names at all. *)
Lemma check_columns_Ok_no_extra (g r : dataset)
    (check_types check_order check_extra_cols : flag) (s : schema) :
  check_columns g r check_types check_order check_extra_cols = Ok s ->
  extra_cols s = [] /\ resolve_option_flag check_extra_cols g = [].
Proof.
  unfold check_columns. intros H.
  destruct (check_types_loop g r _ [] []) as [[m w]|e]; [|discriminate].
  simpl in H.
  destruct (resolve_option_flag check_extra_cols g) as [|n l];
    [|discriminate].
  simpl in H. inversion H; subst. auto.
Qed.

(** With the flags at their defaults, comparing any frame that has a
    column with itself raises. *)
Lemma identity_raises_for_every_frame
    (normpath : string -> string) (compare_with : string -> string -> string)
    (gdf : loc) (d : dataset) (actual_path expected_path : option string)
    (check_data check_order sortby : flag)
    (condition : option (dataset -> list bool)) (precision : option nat)
    (st : state) :
  heap st !! gdf = Some d -> d <> [] ->
  check_geodataframe normpath compare_with gdf gdf actual_path expected_path
    check_data FNone check_order FNone sortby condition precision st
  = (Raise (NameError "name 'ref_df' is not defined"), st).
Proof.
  intros Hd Hne. apply lookup_total_correct in Hd.
  unfold check_geodataframe. rewrite !bind_load, Hd.
  unfold check_columns. simpl resolve_option_flag.
  rewrite check_types_loop_agreeing.
  - destruct d as [|x d]; [congruence|]. reflexivity.
  - intros n Hn. destruct (find_column_In n d Hn) as (a & Ha & _). eauto.
Qed.

(** ** The verdict *)

(** A call that returns has returned 0 or 1: 0 exactly when the content
    check passed and no axis of the column check is set; and the axis of
    extra columns is never set. *)
Lemma verdict_of_a_returning_call
    (normpath : string -> string) (compare_with : string -> string -> string)
    (gdf ref_gdf : loc) (actual_path expected_path : option string)
    (check_data check_types check_order check_extra_cols sortby : flag)
    (condition : option (dataset -> list bool)) (precision : option nat)
    (st st' : state) (n : nat) :
  check_geodataframe normpath compare_with gdf ref_gdf actual_path
    expected_path check_data check_types check_order check_extra_cols sortby
    condition precision st
  = (Ok n, st') ->
  exists (s : schema) (g2 r2 : dataset) (s3 : state) (same : bool),
    check_columns (heap st !!! gdf) (heap st !!! ref_gdf)
      check_types check_order check_extra_cols = Ok s
    /\ extra_cols s = []
    /\ check_contents normpath compare_with g2 r2 check_data (missing_cols s)
         (default 6%nat precision) actual_path expected_path s3
       = (Ok same, st')
    /\ (n = 1%nat <-> same = false \/ any_axis s = true)
    /\ (n = 0%nat <-> same = true /\ any_axis s = false).
Proof.
  intros H. unfold check_geodataframe in H.
  rewrite !bind_load in H.
  apply bind_Ok_inv in H as (s & s1 & H1 & H).
  unfold lift in H1; inversion H1 as [[Hs Hst]]; subst s1; clear H1.
  apply bind_Ok_inv in H as ([] & s2 & H2 & H).
  apply bind_Ok_inv in H as ([] & s3 & H3 & H).
  rewrite !bind_load in H.
  apply bind_Ok_inv in H as (g2 & s4 & H4 & H).
  unfold lift in H4; inversion H4 as [[Hg2 Hst4]]; subst s4; clear H4.
  apply bind_Ok_inv in H as (r2 & s4 & H4 & H).
  unfold lift in H4; inversion H4 as [[Hr2 Hst4]]; subst s4; clear H4.
  apply bind_Ok_inv in H as (same & s5 & H5 & H).
  unfold ret in H; inversion H; subst; clear H.
  exists s, g2, r2, s3, same.
  split; [exact Hs|]. split; [exact (proj1 (check_columns_Ok_no_extra _ _ _ _ _ _ Hs))|].
  split; [exact H5|].
  destruct same, (any_axis s); simpl; intuition congruence.
Qed.

(** ** What the sort does to the rows *)

Lemma insert_index_Permutation key (i : nat) (l : list nat) :
  Permutation (insert_index key i l) (i :: l).
Proof.
  induction l as [|j l IH]; simpl; [reflexivity|].
  destruct (key_compare (key i) (key j)); try reflexivity.
  rewrite IH. apply perm_swap.
Qed.

Lemma argsort_Permutation key (n : nat) :
  Permutation (argsort key n) (seq 0 n).
Proof.
  unfold argsort. induction (seq 0 n) as [|i l IH]; simpl; [reflexivity|].
  rewrite insert_index_Permutation. now constructor.
Qed.

Lemma map_nth_seq (vs : list value) :
  map (fun i => nth i vs VNull) (seq 0 (length vs)) = vs.
Proof.
  induction vs as [|v vs IH]; simpl; [reflexivity|].
  f_equal. rewrite <- seq_shift, map_map. exact IH.
Qed.

(** Sorting permutes the cells of every column that is as long as the
    frame; names and dtypes stay. *)
Lemma take_rows_argsort key (c : column) :
  name (take_rows (argsort key (length (values c))) c) = name c
  /\ col_dtype (take_rows (argsort key (length (values c))) c) = col_dtype c
  /\ Permutation (values (take_rows (argsort key (length (values c))) c))
                 (values c).
Proof.
  repeat split. simpl.
  etransitivity; [apply Permutation_map, argsort_Permutation|].
  now rewrite map_nth_seq.
Qed.

Lemma cell_compare_antisym (a b : value) :
  cell_compare b a = CompOpp (cell_compare a b).
Proof.
  destruct a, b; simpl; try reflexivity;
    try (symmetry; apply Qcompare_antisym).
  apply String.compare_antisym.
Qed.

Lemma key_compare_antisym (k1 k2 : list value) :
  key_compare k2 k1 = CompOpp (key_compare k1 k2).
Proof.
  revert k2. induction k1 as [|a k1 IH]; intros [|b k2]; simpl;
    try reflexivity.
  rewrite (cell_compare_antisym a b).
  destruct (cell_compare a b); simpl; auto.
Qed.

Lemma insert_index_Sorted key (i : nat) (l : list nat) :
  Sorted (in_order key) l -> Sorted (in_order key) (insert_index key i l).
Proof.
  induction l as [|j l IH]; intros Hs; simpl.
  - repeat constructor.
  - destruct (key_compare (key i) (key j)) eqn:E.
    + constructor; [exact Hs|]. constructor. unfold in_order. congruence.
    + constructor; [exact Hs|]. constructor. unfold in_order. congruence.
    + inversion Hs as [|? ? Hs' Hhd]; subst.
      constructor; [auto|].
      assert (Hji : in_order key j i).
      { unfold in_order. rewrite key_compare_antisym, E. discriminate. }
      destruct l as [|k l]; simpl.
      * now constructor.
      * inversion Hhd; subst.
        destruct (key_compare (key i) (key k)); now constructor.
Qed.

(** The rows come out in ascending key order. *)
Lemma argsort_Sorted key (n : nat) : Sorted (in_order key) (argsort key n).
Proof.
  unfold argsort. induction (seq 0 n) as [|i l IH]; simpl.
  - constructor.
  - now apply insert_index_Sorted.
Qed.

(** ** The explanation of a wrong ordering *)

(** The fallback of the explanation is taken exactly when the first list
    runs out without a mismatch, that is, when it is a prefix of the
    second; the lists it is run on are filtered by the type flag, not by
    the order flag that found the difference. *)
Lemma ordermsg_loop_fallback (c1 c2 : list string) :
  forall i,
  ordermsg_loop c1 c2 i = "mysterious difference, they appear to be the same!"%string ->
  exists rest, skipn i c2 = c1 ++ rest.
Proof.
  induction c1 as [|c c1 IH]; intros i H; simpl in *.
  - eauto.
  - destruct (nth_error c2 i) as [c'|] eqn:E; [|discriminate].
    destruct (String.eqb_spec c c') as [->|Hne]; simpl in H; [|discriminate].
    destruct (IH _ H) as [rest Hrest]. exists rest.
    rewrite (skipn_nth_error _ _ _ E), Hrest. reflexivity.
Qed.

(** ** The batch on three pairs, the second unreadable *)

Example batch_isolation :
  let out := check_parquet_files plain_normpath plain_compare_with
               ["a1.parquet"; "bad.parquet"; "a3.parquet"]
               ["e1.parquet"; "e2.parquet"; "e3.parquet"]
               (Some three_pairs_loader) FNone FNone FNone None FNone
               (State ∅ []) in
  fst out = Ok 1%nat
  /\ diffs (snd out)
     = ["Error comparing bad.parquet and e2.parquet (ValueError not a parquet file)"].
Proof. vm_compute. split; reflexivity. Qed.

(** With the default loader every pair fails before a file is read. *)
Example batch_default_loader :
  let out := check_parquet_files plain_normpath plain_compare_with
               ["a1.parquet"] ["e1.parquet"] None FNone FNone FNone None FNone
               (State ∅ []) in
  fst out = Ok 1%nat
  /\ diffs (snd out)
     = ["Error comparing a1.parquet and e1.parquet (NameError name 'parquet' is not defined)"].
Proof. vm_compute. split; reflexivity. Qed.

(** ** Identity, with the extra-column check switched off *)

Lemma frame_equals_refl (d : dataset) : frame_equals d d = true.
Proof.
  unfold frame_equals. apply forallb2_refl.
  intros y. now rewrite String.eqb_refl, series_equals_refl.
Qed.

Lemma check_columns_identity (d : dataset) :
  check_columns d d FNone FNone FFalse = Ok (Schema [] [] [] false).
Proof.
  unfold check_columns. simpl resolve_option_flag.
  rewrite check_types_loop_agreeing.
  - simpl. now rewrite names_eqb_refl.
  - intros n Hn. destruct (find_column_In n d Hn) as (a & Ha & _). eauto.
Qed.

Lemma check_contents_identity
    (normpath : string -> string) (compare_with : string -> string -> string)
    (d : dataset) (p : nat) (st : state) :
  List.NoDup (columns d) ->
  check_contents normpath compare_with d d FNone [] p None None st
  = (Ok true, st).
Proof.
  intros Hnd. unfold check_contents. rewrite Nat.eqb_refl.
  change (negb true) with false. cbv iota.
  change (resolve_option_flag FNone d) with (columns d).
  destruct (nonempty (columns d)); [|reflexivity].
  rewrite filter_not_mem_nil, (project_self d Hnd), !bind_lift_Ok.
  now rewrite frame_equals_refl.
Qed.

(** X18.  Once line 141 is out of the way (the extra-column check
    switched off) the identity property holds: a frame with distinct
    column names compares equal to itself, whether the two arguments are
    one object or two; the call returns 0, writes nothing and changes
    nothing. *)
Lemma identity_with_extra_check_off
    (normpath : string -> string) (compare_with : string -> string -> string)
    (gdf ref_gdf : loc) (d : dataset) (precision : option nat) (st : state) :
  List.NoDup (columns d) ->
  heap st !! gdf = Some d -> heap st !! ref_gdf = Some d ->
  check_geodataframe normpath compare_with gdf ref_gdf None None
    FNone FNone FNone FFalse FNone None precision st
  = (Ok 0%nat, st).
Proof.
  intros Hnd Hg Hr. apply lookup_total_correct in Hg, Hr.
  unfold check_geodataframe.
  rewrite !bind_load, Hg, Hr, check_columns_identity, bind_lift_Ok.
  rewrite report_columns_clean, bind_ret.
  change (sort_phase gdf ref_gdf d FNone
            (missing_cols (Schema [] [] [] false)))
    with (ret tt).
  rewrite bind_ret, !bind_load, Hg, Hr.
  change (apply_condition None d) with (Ok d).
  rewrite !bind_lift_Ok.
  change (missing_cols (Schema [] [] [] false)) with (@nil string).
  unfold bind. now rewrite check_contents_identity.
Qed.

(** * Further properties of the module *)

(** ** The sampler, row by row *)

Lemma sample_is_the_slice (vs : list value) :
  forall n start,
  (n = 0 \/ start + n <= length vs)%nat ->
  rmapM (fun i => (v <- series_get vs i ;;
                   Ok (if isnull v then VNull else v))%res)
        (seq start n)
  = Ok (firstn n (skipn start vs)).
Proof.
  induction n as [|n IH]; intros start Hn; simpl; [reflexivity|].
  destruct (series_get_lt vs start) as (v & Hv & Hnth); [lia|].
  rewrite Hv. simpl. rewrite IH by lia. simpl.
  rewrite (skipn_nth_error _ _ _ Hnth). simpl.
  now destruct v.
Qed.



Lemma ndifferences_loop_first_agreement (v1 v2 : list value) :
  forall n start stop,
  stop = (start + n)%nat ->
  (stop <= length v1)%nat -> (stop <= length v2)%nat ->
  exists k,
    ndifferences_loop v1 v2 (seq start n) stop = Ok k
    /\ (start <= k <= stop)%nat
    /\ (forall i, (start <= i < k)%nat -> rows_agree v1 v2 i = Some false)
    /\ ((k < stop)%nat -> rows_agree v1 v2 k = Some true).
Proof.
  induction n as [|n IH]; intros start stop Hstop H1 H2; simpl.
  - exists stop. split; [reflexivity|]. repeat split; intros; lia.
  - destruct (series_get_lt v1 start) as (a & Ha & Hna); [lia|].
    destruct (series_get_lt v2 start) as (b & Hb & Hnb); [lia|].
    rewrite Ha, Hb. simpl.
    assert (Hrow : rows_agree v1 v2 start = Some (agree a b))
      by (unfold rows_agree; now rewrite Hna, Hnb).
    destruct (agree a b) eqn:Hab.
    + exists start. split; [reflexivity|]. repeat split; intros; try lia.
      exact Hrow.
    + destruct (IH (S start) stop) as (k & Hk & Hrange & Hbefore & Hat);
        [lia | lia | lia |].
      exists k. split; [exact Hk|]. split; [lia|]. split; [|exact Hat].
      intros i Hi. destruct (Nat.eq_dec i start) as [->|Hne];
        [exact Hrow | apply Hbefore; lia].
Qed.



Lemma differences_loop_first_row (a b : column) (p i : nat)
    (stop : nat) (s1 s2 : string) :
  (forall j, (j < i)%nat -> rows_agree (values a) (values b) j = Some true) ->
  rows_agree (values a) (values b) i = Some false ->
  ndifferences (values a) (values b) i 10 = Ok stop ->
  sample_format a i stop p = Ok s1 ->
  sample_format b i stop p = Ok s2 ->
  forall n j, (j + n = i)%nat ->
  differences_loop a b p (skipn j (values a)) j
  = Ok ("From row " +:+ str_nat (i + 1) +:+ ": [" +:+ s1 +:+ "] != ["
        +:+ s2 +:+ "]").
Proof.
  intros Hbefore Hat Hstop Hs1 Hs2.
  induction n as [|n IH]; intros j Hj.
  - replace j with i by lia. unfold rows_agree in Hat.
    destruct (nth_error (values a) i) as [x|] eqn:Ex; [|discriminate].
    destruct (nth_error (values b) i) as [y|] eqn:Ey; [|discriminate].
    rewrite (skipn_nth_error _ _ _ Ex). cbn [differences_loop].
    unfold series_get. rewrite Ey. cbn [rbind]. rewrite differ_negb_agree.
    inversion Hat as [Hxy]. rewrite Hxy. cbn [negb].
    rewrite Hstop. cbn [rbind]. rewrite Hs1. cbn [rbind]. now rewrite Hs2.
  - assert (Hrow := Hbefore j ltac:(lia)). unfold rows_agree in Hrow.
    destruct (nth_error (values a) j) as [x|] eqn:Ex; [|discriminate].
    destruct (nth_error (values b) j) as [y|] eqn:Ey; [|discriminate].
    rewrite (skipn_nth_error _ _ _ Ex). cbn [differences_loop].
    unfold series_get. rewrite Ey. cbn [rbind]. rewrite differ_negb_agree.
    inversion Hrow as [Hxy]. rewrite Hxy. cbn [negb].
    apply IH. lia.
Qed.



Lemma differences_loop_no_row (a b : column) (p : nat) :
  forall rest j,
  forallb2 agree rest (skipn j (values b)) = true ->
  differences_loop a b p rest j
  = Ok (if dtype_eqb (col_dtype a) (col_dtype b)
        then "But mysteriously appear to be identical!"
        else "Different types").
Proof.
  induction rest as [|x rest IH]; intros j H; simpl; [reflexivity|].
  simpl in H. destruct (skipn j (values b)) as [|y tl] eqn:E; [discriminate|].
  apply andb_prop in H as [Hxy Htl].
  assert (Hnth : nth_error (values b) j = Some y).
  { rewrite <- (firstn_skipn j (values b)), E.
    assert (Hj : (j <= length (values b))%nat).
    { destruct (Nat.le_gt_cases j (length (values b))) as [|Hgt]; [assumption|].
      rewrite skipn_all2 in E by lia. discriminate. }
    rewrite nth_error_app2; rewrite length_firstn, Nat.min_l by exact Hj;
      [|lia]. now rewrite Nat.sub_diag. }
  unfold series_get. rewrite Hnth. simpl.
  rewrite differ_negb_agree, Hxy. simpl.
  apply IH. rewrite (skipn_nth_error _ _ _ Hnth) in E.
  inversion E; subst. exact Htl.
Qed.



(** ** What a call may change, and what it may write *)

Lemma keeps_touches {A} (ls : list loc) (m : M A) :
  keeps_heap m -> touches_only ls m.
Proof. intros Hm st l _. now rewrite Hm. Qed.

Lemma touches_bind {A B} (ls : list loc) (m : M A) (k : A -> M B) :
  touches_only ls m -> (forall a, touches_only ls (k a)) ->
  touches_only ls (bind m k).
Proof.
  intros Hm Hk st l Hl. unfold bind. specialize (Hm st l Hl).
  destruct (m st) as [[a|e] st1]; simpl in *; [|exact Hm].
  now rewrite Hk.
Qed.

Lemma touches_sort_in_place (ls : list loc) (l : loc) (by_ : list string) :
  In l ls -> touches_only ls (sort_in_place l by_).
Proof.
  intros Hin st l' Hl'. unfold sort_in_place, bind, load, lift, store.
  destruct (sort_values by_ (heap st !!! l)) as [d|e]; simpl; [|reflexivity].
  apply lookup_insert_ne. intros ->. contradiction.
Qed.

Lemma touches_sort_phase gdf ref_gdf r sortby missing :
  touches_only [gdf; ref_gdf] (sort_phase gdf ref_gdf r sortby missing).
Proof.
  unfold sort_phase. destruct (truthy sortby); [|apply keeps_touches, keeps_ret].
  destruct (existsb _ missing); [apply keeps_touches, keeps_raise|].
  apply touches_bind; [|intros ?]; apply touches_sort_in_place; simpl; auto.
Qed.

Lemma check_geodataframe_frame
    (normpath : string -> string) (compare_with : string -> string -> string)
    (gdf ref_gdf : loc) (actual_path expected_path : option string)
    (check_data check_types check_order check_extra_cols sortby : flag)
    (condition : option (dataset -> list bool)) (precision : option nat)
    (st : state) (l : loc) :
  l <> gdf -> l <> ref_gdf ->
  heap (snd (check_geodataframe normpath compare_with gdf ref_gdf actual_path
               expected_path check_data check_types check_order
               check_extra_cols sortby condition precision st)) !! l
  = heap st !! l.
Proof.
  intros Hg Hr.
  assert (H : touches_only [gdf; ref_gdf]
                (check_geodataframe normpath compare_with gdf ref_gdf
                   actual_path expected_path check_data check_types
                   check_order check_extra_cols sortby condition precision)).
  { unfold check_geodataframe.
    repeat (apply touches_bind; [|intros ?]);
      try apply touches_sort_phase;
      apply keeps_touches;
      auto using keeps_report_columns, keeps_check_contents with keeps. }
  apply H. simpl. intuition congruence.
Qed.

(** X5.  Whether it returns or raises, [check_geodataframe] changes no
    object other than the two frames it was given. *)
Theorem check_geodataframe_touches_only_its_arguments
    (normpath : string -> string) (compare_with : string -> string -> string)
    (gdf ref_gdf : loc) (actual_path expected_path : option string)
    (check_data check_types check_order check_extra_cols sortby : flag)
    (condition : option (dataset -> list bool)) (precision : option nat)
    (st : state) (l : loc) :
  l <> gdf -> l <> ref_gdf ->
  heap (snd (check_geodataframe normpath compare_with gdf ref_gdf actual_path
               expected_path check_data check_types check_order
               check_extra_cols sortby condition precision st)) !! l
  = heap st !! l.
Proof.
  intros Hg Hr. now apply check_geodataframe_frame.
Qed.

Lemma check_geodataframe_touches_only_its_arguments_witness :
  heap (snd (check_geodataframe plain_normpath plain_compare_with 0%nat 1%nat
               None None FNone FNone FNone FFalse (FList ["a"]) None None
               (initial [unsorted; unsorted; unsorted]))) !! 2%nat
  = heap (initial [unsorted; unsorted; unsorted]) !! 2%nat.
Proof.
  apply (check_geodataframe_touches_only_its_arguments plain_normpath
           plain_compare_with 0%nat 1%nat None None FNone FNone FNone FFalse
           (FList ["a"]) None None (initial [unsorted; unsorted; unsorted])
           2%nat); lia.
Defined.

Lemma li_ret {A} (a : A) : log_independent (ret a).
Proof. intros h l. simpl. now rewrite app_nil_r. Qed.

Lemma li_raise {A} (e : exn) : log_independent (@raise A e).
Proof. intros h l. simpl. now rewrite app_nil_r. Qed.

Lemma li_lift {A} (r : result A) : log_independent (lift r).
Proof. intros h l. simpl. now rewrite app_nil_r. Qed.

Lemma li_load x : log_independent (load x).
Proof. intros h l. simpl. now rewrite app_nil_r. Qed.

Lemma li_store x d : log_independent (store x d).
Proof. intros h l. simpl. now rewrite app_nil_r. Qed.

Lemma li_info s : log_independent (info s).
Proof. now intros h l. Qed.

Lemma li_bind {A B} (m : M A) (k : A -> M B) :
  log_independent m -> (forall a, log_independent (k a)) ->
  log_independent (bind m k).
Proof.
  intros Hm Hk h l. unfold bind. rewrite (Hm h l).
  destruct (m (State h [])) as [[a|e] [h1 d1]]; simpl; [|reflexivity].
  rewrite (Hk a h1 (l ++ d1)), (Hk a h1 d1).
  destruct (k a (State h1 [])) as [r2 [h2 d2]]; simpl.
  now rewrite app_assoc.
Qed.

Lemma li_if {A} (b : bool) (m1 m2 : M A) :
  log_independent m1 -> log_independent m2 ->
  log_independent (if b then m1 else m2).
Proof. now destruct b. Qed.

Create HintDb logs.
#[local] Hint Resolve li_ret li_raise li_lift li_load li_store li_info
  li_bind li_if : logs.

Lemma li_info_wrong_types wt : log_independent (info_wrong_types wt).
Proof.
  induction wt as [|[[c dt] rdt] rest IH]; simpl; auto with logs.
Qed.

Lemma li_report_differences a b cs p :
  log_independent (report_differences a b cs p).
Proof.
  induction cs as [|c cs IH]; simpl; auto 12 with logs.
Qed.

#[local] Hint Resolve li_info_wrong_types li_report_differences : logs.

(** X6.  What [check_geodataframe] does is independent of the lines
    already in the log it is given: from a log that holds [lines] it
    gives the same result and leaves the same frames as from an empty
    log, and the log it leaves is [lines] followed by what it writes
    from an empty log.  In particular it only appends, whether it
    returns or raises. *)
Theorem check_geodataframe_is_independent_of_the_log
    (normpath : string -> string) (compare_with : string -> string -> string)
    (gdf ref_gdf : loc) (actual_path expected_path : option string)
    (check_data check_types check_order check_extra_cols sortby : flag)
    (condition : option (dataset -> list bool)) (precision : option nat)
    (h : gmap loc dataset) (lines : list string) :
  let run := check_geodataframe normpath compare_with gdf ref_gdf actual_path
               expected_path check_data check_types check_order
               check_extra_cols sortby condition precision in
  run (State h lines)
  = (fst (run (State h [])),
     State (heap (snd (run (State h []))))
           (lines ++ diffs (snd (run (State h []))))).
Proof.
  intros run.
  assert (H : log_independent run).
  { unfold run, check_geodataframe, report_columns, sort_phase, sort_in_place,
      check_contents, failure.
    repeat (first [ apply li_if | apply li_bind; [|intros ?] ]);
      auto 12 with logs. }
  apply H.
Qed.

(** X7.  With [sortby] left unset, set to [False] or to an empty list,
    [check_geodataframe] changes no frame at all, whether it returns or
    raises. *)
Theorem unsorted_call_changes_no_frame
    (normpath : string -> string) (compare_with : string -> string -> string)
    (gdf ref_gdf : loc) (actual_path expected_path : option string)
    (check_data check_types check_order check_extra_cols sortby : flag)
    (condition : option (dataset -> list bool)) (precision : option nat)
    (st : state) :
  sortby = FNone \/ sortby = FFalse \/ sortby = FList [] ->
  heap (snd (check_geodataframe normpath compare_with gdf ref_gdf actual_path
               expected_path check_data check_types check_order
               check_extra_cols sortby condition precision st))
  = heap st.
Proof.
  intros Hs.
  apply (check_geodataframe_keeps_heap_without_sort normpath compare_with).
  now destruct Hs as [->|[->| ->]].
Qed.

Lemma unsorted_call_changes_no_frame_witness :
  heap (snd (check_geodataframe plain_normpath plain_compare_with 0%nat 1%nat
               None None FNone FNone FNone FNone (FList []) None None
               (initial [unsorted; df1])))
  = heap (initial [unsorted; df1]).
Proof.
  apply (unsorted_call_changes_no_frame plain_normpath plain_compare_with
           0%nat 1%nat None None FNone FNone FNone FNone (FList []) None None
           (initial [unsorted; df1])).
  right. right. reflexivity.
Defined.

(** ** Files and batches *)

Section Files.

Variable normpath : string -> string.
Variable compare_with : string -> string -> string.
Variable loader : option (string -> result dataset).
Variables check_data check_types check_order sortby : flag.
Variable condition : option (dataset -> list bool).

Lemma fresh_is_new (h : gmap nat dataset) (l : nat) :
  is_Some (h !! l) -> l <> fresh (dom h).
Proof.
  intros Hl ->. apply elem_of_dom in Hl. exact (is_fresh (dom h) Hl).
Qed.

Lemma check_parquet_file_keeps_objects (a e : string) (p : option nat)
    (st : state) (l : nat) :
  is_Some (heap st !! l) ->
  heap (snd (check_parquet_file normpath compare_with a e loader check_data
               check_types check_order condition sortby p st)) !! l
  = heap st !! l.
Proof.
  intros Hl. unfold check_parquet_file.
  unfold bind at 1, lift at 1.
  destruct (load_parquet e loader) as [ref_d|ex]; [|reflexivity].
  unfold bind at 1, alloc at 1. unfold bind at 1, lift at 1.
  set (l1 := fresh (dom (heap st))).
  assert (H1 : l <> l1) by now apply fresh_is_new.
  destruct (load_parquet a loader) as [d|ex]; simpl.
  2: now apply lookup_insert_ne.
  unfold bind at 1, alloc at 1. cbn [heap diffs].
  set (h1 := <[l1 := ref_d]> (heap st)).
  set (l2 := fresh (dom h1)).
  assert (Hl1 : is_Some (h1 !! l)).
  { unfold h1. now rewrite lookup_insert_ne. }
  assert (H2 : l <> l2) by now apply fresh_is_new.
  rewrite check_geodataframe_frame by assumption. cbn [heap].
  rewrite lookup_insert_ne by congruence.
  unfold h1. now rewrite lookup_insert_ne.
Qed.

Lemma check_parquet_files_loop_keeps_objects (pairs : list (string * string)) :
  forall (failures : nat) (st : state) (l : nat),
  is_Some (heap st !! l) ->
  heap (snd (check_parquet_files_loop normpath compare_with pairs loader
               check_data check_types check_order condition sortby failures
               st)) !! l
  = heap st !! l.
Proof.
  induction pairs as [|[a e] rest IH]; intros failures st l Hl; simpl;
    [reflexivity|].
  unfold bind at 1, catch.
  pose proof (check_parquet_file_keeps_objects a e (Some 6%nat) st l Hl) as Hk.
  destruct (check_parquet_file normpath compare_with a e loader check_data
              check_types check_order condition sortby (Some 6%nat) st)
    as [[n|ex] st1]; simpl in Hk.
  - rewrite IH; [exact Hk | rewrite Hk; exact Hl].
  - unfold bind at 1, info at 1. cbn [ret].
    rewrite IH; cbn [heap]; [exact Hk | rewrite Hk; exact Hl].
Qed.

End Files.

(** X8.  [check_parquet_file] works on frames of its own: whether it
    returns or raises, and whether or not it sorts, every frame that
    existed before the call is as it was. *)
Theorem check_parquet_file_keeps_callers_frames
    (normpath : string -> string) (compare_with : string -> string -> string)
    (actual_path expected_path : string)
    (loader : option (string -> result dataset))
    (check_data check_types check_order : flag)
    (condition : option (dataset -> list bool)) (sortby : flag)
    (precision : option nat) (st : state) (l : loc) (d : dataset) :
  heap st !! l = Some d ->
  heap (snd (check_parquet_file normpath compare_with actual_path
               expected_path loader check_data check_types check_order
               condition sortby precision st)) !! l
  = Some d.
Proof.
  intros Hl. rewrite check_parquet_file_keeps_objects; [exact Hl|].
  rewrite Hl. eauto.
Qed.

Lemma check_parquet_file_keeps_callers_frames_witness :
  heap (snd (check_parquet_file plain_normpath plain_compare_with
               "a.parquet" "e.parquet" (Some (fun _ => Ok unsorted))
               FNone FFalse FNone None (FList ["a"]) None
               (initial [unsorted]))) !! 0%nat
  = Some unsorted.
Proof.
  apply (check_parquet_file_keeps_callers_frames plain_normpath
           plain_compare_with "a.parquet" "e.parquet"
           (Some (fun _ => Ok unsorted)) FNone FFalse FNone None (FList ["a"])
           None (initial [unsorted]) 0%nat unsorted).
  reflexivity.
Defined.

(** X9.  [check_parquet_files] leaves every frame that existed before
    the call as it was, however many pairs it compares and whichever of
    them raise. *)
Theorem check_parquet_files_keeps_callers_frames
    (normpath : string -> string) (compare_with : string -> string -> string)
    (actual_paths expected_paths : list string)
    (loader : option (string -> result dataset))
    (check_data check_types check_order : flag)
    (condition : option (dataset -> list bool)) (sortby : flag)
    (st : state) (l : loc) (d : dataset) :
  heap st !! l = Some d ->
  heap (snd (check_parquet_files normpath compare_with actual_paths
               expected_paths loader check_data check_types check_order
               condition sortby st)) !! l
  = Some d.
Proof.
  intros Hl. unfold check_parquet_files.
  rewrite check_parquet_files_loop_keeps_objects; [exact Hl|].
  rewrite Hl. eauto.
Qed.

Lemma check_parquet_files_keeps_callers_frames_witness :
  heap (snd (check_parquet_files plain_normpath plain_compare_with
               ["a1.parquet"; "bad.parquet"] ["e1.parquet"; "e2.parquet"]
               (Some three_pairs_loader) FNone FNone FNone None FNone
               (initial [df1]))) !! 0%nat
  = Some df1.
Proof.
  apply (check_parquet_files_keeps_callers_frames plain_normpath
           plain_compare_with ["a1.parquet"; "bad.parquet"]
           ["e1.parquet"; "e2.parquet"] (Some three_pairs_loader)
           FNone FNone FNone None FNone (initial [df1]) 0%nat df1).
  reflexivity.
Defined.

Lemma check_geodataframe_count
    (normpath : string -> string) (compare_with : string -> string -> string)
    (gdf ref_gdf : loc) (actual_path expected_path : option string)
    (check_data check_types check_order check_extra_cols sortby : flag)
    (condition : option (dataset -> list bool)) (precision : option nat)
    (st st' : state) (n : nat) :
  check_geodataframe normpath compare_with gdf ref_gdf actual_path
    expected_path check_data check_types check_order check_extra_cols sortby
    condition precision st
  = (Ok n, st') ->
  (n <= 1)%nat.
Proof.
  intros H. apply verdict_of_a_returning_call in H
    as (s & g2 & r2 & s3 & same & _ & _ & _ & H1 & H0).
  destruct same, (any_axis s);
    first [ assert (n = 0%nat) by (apply H0; auto); lia
          | assert (n = 1%nat) by (apply H1; auto); lia ].
Qed.

Lemma check_parquet_file_count
    (normpath : string -> string) (compare_with : string -> string -> string)
    (a e : string) (loader : option (string -> result dataset))
    (check_data check_types check_order : flag)
    (condition : option (dataset -> list bool)) (sortby : flag)
    (precision : option nat) (st st' : state) (n : nat) :
  check_parquet_file normpath compare_with a e loader check_data check_types
    check_order condition sortby precision st
  = (Ok n, st') ->
  (n <= 1)%nat.
Proof.
  intros H. unfold check_parquet_file in H.
  apply bind_Ok_inv in H as (ref_d & s1 & _ & H).
  apply bind_Ok_inv in H as (ref_gdf & s2 & _ & H).
  apply bind_Ok_inv in H as (d & s3 & _ & H).
  apply bind_Ok_inv in H as (gdf & s4 & _ & H).
  now apply check_geodataframe_count in H.
Qed.

Lemma check_parquet_files_loop_count
    (normpath : string -> string) (compare_with : string -> string -> string)
    (loader : option (string -> result dataset))
    (check_data check_types check_order : flag)
    (condition : option (dataset -> list bool)) (sortby : flag)
    (pairs : list (string * string)) :
  forall (failures : nat) (st : state),
  exists n st',
    check_parquet_files_loop normpath compare_with pairs loader check_data
      check_types check_order condition sortby failures st
    = (Ok n, st')
    /\ (failures <= n <= failures + length pairs)%nat.
Proof.
  induction pairs as [|[a e] rest IH]; intros failures st; simpl.
  - exists failures, st. split; [reflexivity | lia].
  - unfold bind at 1, catch.
    destruct (check_parquet_file normpath compare_with a e loader check_data
                check_types check_order condition sortby (Some 6%nat) st)
      as [[k|ex] st1] eqn:E.
    + apply check_parquet_file_count in E.
      destruct (IH (failures + k)%nat st1) as (n & st' & Hn & Hb).
      exists n, st'. split; [exact Hn | lia].
    + unfold bind at 1, info at 1. cbn [ret].
      match goal with
      | |- context [check_parquet_files_loop _ _ _ _ _ _ _ _ _ ?f ?s] =>
          destruct (IH f s) as (n & st' & Hn & Hb)
      end.
      exists n, st'. split; [exact Hn | lia].
Qed.

(** X10.  [check_parquet_files] always returns, and the total it returns
    is at most the number of pairs it was given (the length of the
    shorter of the two lists of paths): every pair counts for 0 or 1. *)
Theorem check_parquet_files_counts_at_most_one_per_pair
    (normpath : string -> string) (compare_with : string -> string -> string)
    (actual_paths expected_paths : list string)
    (loader : option (string -> result dataset))
    (check_data check_types check_order : flag)
    (condition : option (dataset -> list bool)) (sortby : flag)
    (st : state) :
  exists n st',
    check_parquet_files normpath compare_with actual_paths expected_paths
      loader check_data check_types check_order condition sortby st
    = (Ok n, st')
    /\ (n <= Nat.min (length actual_paths) (length expected_paths))%nat.
Proof.
  unfold check_parquet_files.
  destruct (check_parquet_files_loop_count normpath compare_with loader
              check_data check_types check_order condition sortby
              (combine actual_paths expected_paths) 0%nat st)
    as (n & st' & Hn & Hb).
  exists n, st'. split; [exact Hn|].
  rewrite length_combine in Hb. lia.
Qed.

Lemma check_parquet_files_default_loader_loop
    (normpath : string -> string) (compare_with : string -> string -> string)
    (check_data check_types check_order : flag)
    (condition : option (dataset -> list bool)) (sortby : flag)
    (pairs : list (string * string)) :
  forall (failures : nat) (st : state),
  check_parquet_files_loop normpath compare_with pairs None check_data
    check_types check_order condition sortby failures st
  = (Ok (failures + length pairs)%nat,
     State (heap st)
       (diffs st
        ++ map (fun ae => error_message normpath (fst ae) (snd ae)
                            (NameError "name 'parquet' is not defined"))
               pairs)).
Proof.
  induction pairs as [|[a e] rest IH]; intros failures st; simpl.
  - rewrite Nat.add_0_r, app_nil_r. now destruct st.
  - unfold bind at 1, catch. unfold check_parquet_file.
    unfold bind at 1, lift at 1. cbn [load_parquet default_parquet_loader].
    unfold bind at 1, info at 1. cbn [ret].
    rewrite IH. cbn [heap diffs]. rewrite <- app_assoc. simpl.
    do 2 f_equal. lia.
Qed.

(** X11.  With no loader given, the module's own loader is used, and it
    raises before it opens a file (its option table names [parquet],
    which the module does not bind): the batch then counts every pair as
    one failure, appends one "Error comparing" line per pair with the
    [NameError], and touches no frame. *)
Theorem check_parquet_files_with_the_default_loader
    (normpath : string -> string) (compare_with : string -> string -> string)
    (actual_paths expected_paths : list string)
    (check_data check_types check_order : flag)
    (condition : option (dataset -> list bool)) (sortby : flag)
    (st : state) :
  check_parquet_files normpath compare_with actual_paths expected_paths
    None check_data check_types check_order condition sortby st
  = (Ok (Nat.min (length actual_paths) (length expected_paths)),
     State (heap st)
       (diffs st
        ++ map (fun ae => error_message normpath (fst ae) (snd ae)
                            (NameError "name 'parquet' is not defined"))
               (combine actual_paths expected_paths))).
Proof.
  unfold check_parquet_files.
  rewrite check_parquet_files_default_loader_loop.
  now rewrite length_combine.
Qed.

Lemma combine_surplus_l {A B} (l more : list A) (r : list B) :
  length l = length r -> combine (l ++ more) r = combine l r.
Proof.
  revert r. induction l as [|x l IH]; intros [|y r] H; simpl in *;
    try discriminate.
  - now destruct more.
  - f_equal. apply IH. lia.
Qed.

Lemma combine_surplus_r {A B} (l : list A) (r more : list B) :
  length l = length r -> combine l (r ++ more) = combine l r.
Proof.
  revert r. induction l as [|x l IH]; intros [|y r] H; simpl in *;
    try discriminate; [reflexivity|].
  f_equal. apply IH. lia.
Qed.

(** X12.  The two lists of paths are walked in step: paths beyond the
    length of the other list are ignored without a message. *)
Theorem check_parquet_files_ignores_surplus_paths
    (normpath : string -> string) (compare_with : string -> string -> string)
    (actual_paths expected_paths more : list string)
    (loader : option (string -> result dataset))
    (check_data check_types check_order : flag)
    (condition : option (dataset -> list bool)) (sortby : flag)
    (st : state) :
  length actual_paths = length expected_paths ->
  check_parquet_files normpath compare_with (actual_paths ++ more)
    expected_paths loader check_data check_types check_order condition sortby
    st
  = check_parquet_files normpath compare_with actual_paths expected_paths
      loader check_data check_types check_order condition sortby st
  /\ check_parquet_files normpath compare_with actual_paths
       (expected_paths ++ more) loader check_data check_types check_order
       condition sortby st
     = check_parquet_files normpath compare_with actual_paths expected_paths
         loader check_data check_types check_order condition sortby st.
Proof.
  intros Hlen. unfold check_parquet_files.
  now rewrite combine_surplus_l, combine_surplus_r.
Qed.

Lemma check_parquet_files_ignores_surplus_paths_witness :
  check_parquet_files plain_normpath plain_compare_with
    (["a1.parquet"] ++ ["bad.parquet"]) ["e1.parquet"]
    (Some three_pairs_loader) FNone FNone FNone None FNone (State ∅ [])
  = check_parquet_files plain_normpath plain_compare_with
      ["a1.parquet"] ["e1.parquet"]
      (Some three_pairs_loader) FNone FNone FNone None FNone (State ∅ [])
  /\ check_parquet_files plain_normpath plain_compare_with
       ["a1.parquet"] (["e1.parquet"] ++ ["bad.parquet"])
       (Some three_pairs_loader) FNone FNone FNone None FNone (State ∅ [])
     = check_parquet_files plain_normpath plain_compare_with
         ["a1.parquet"] ["e1.parquet"]
         (Some three_pairs_loader) FNone FNone FNone None FNone (State ∅ []).
Proof.
  apply (check_parquet_files_ignores_surplus_paths plain_normpath
           plain_compare_with ["a1.parquet"] ["e1.parquet"] ["bad.parquet"]
           (Some three_pairs_loader) FNone FNone FNone None FNone
           (State ∅ [])).
  reflexivity.
Defined.

(** ** The column check, axis by axis *)

Lemma check_types_loop_records (g r : dataset) (cs : list string) :
  forall m w m' w',
  check_types_loop g r cs m w = Ok (m', w') ->
  m' = m ++ List.filter (fun c => negb (mem c (columns g))) cs
  /\ w' = w ++ flat_map (wrong_type_of g r) cs.
Proof.
  induction cs as [|c cs IH]; intros m w m' w' H; simpl in H.
  - inversion H; subst. simpl. now rewrite !app_nil_r.
  - simpl. unfold wrong_type_of at 1.
    destruct (mem c (columns g)) eqn:Hc; simpl in H |- *.
    + unfold getitem in H.
      destruct (find_column c g) as [a|] eqn:Ea; [|discriminate].
      simpl in H.
      destruct (find_column c r) as [b|] eqn:Eb; [|discriminate].
      simpl in H.
      destruct (dtype_eqb (col_dtype a) (col_dtype b)); simpl in H |- *.
      * now apply IH.
      * apply IH in H as [-> ->]. now rewrite <- app_assoc.
    + apply IH in H as [-> ->]. rewrite <- app_assoc. split; [reflexivity|].
      destruct (find_column c g) as [a|] eqn:Ea; [|reflexivity].
      apply find_column_Some_In, mem_In in Ea. congruence.
Qed.

(** X13.  When the column check completes, [missing_cols] holds, in
    their order, exactly the type-checked names that are not columns of
    the actual frame, and [wrong_types] exactly the type-checked names
    that both frames have with different dtypes, each with the actual
    and the expected dtype; wrong ordering is reported only when no
    column is missing. *)
Theorem check_columns_records (g r : dataset)
    (check_types check_order check_extra_cols : flag) (s : schema) :
  check_columns g r check_types check_order check_extra_cols = Ok s ->
  let cs := resolve_option_flag check_types r in
  missing_cols s = List.filter (fun c => negb (mem c (columns g))) cs
  /\ wrong_types s = flat_map (wrong_type_of g r) cs
  /\ (missing_cols s <> [] -> wrong_ordering s = false).
Proof.
  unfold check_columns. intros H.
  destruct (check_types_loop g r _ [] []) as [[m w]|e] eqn:E; [|discriminate].
  apply check_types_loop_records in E as [-> ->]. simpl in H.
  destruct (nonempty (resolve_option_flag check_extra_cols g));
    [discriminate|].
  simpl in H. inversion H; subst; clear H. simpl.
  repeat split. intros Hm.
  destruct (List.filter _ _); [congruence|]. simpl.
  now rewrite andb_false_r.
Qed.

Lemma check_columns_records_witness :
  let cs := resolve_option_flag FNone colours in
  missing_cols (Schema ["Name"; "RGB"] [] [] false)
  = List.filter (fun c => negb (mem c (columns no_columns))) cs
  /\ wrong_types (Schema ["Name"; "RGB"] [] [] false)
     = flat_map (wrong_type_of no_columns colours) cs
  /\ (missing_cols (Schema ["Name"; "RGB"] [] [] false) <> [] ->
      wrong_ordering (Schema ["Name"; "RGB"] [] [] false) = false).
Proof.
  apply (check_columns_records no_columns colours FNone FNone FNone
           (Schema ["Name"; "RGB"] [] [] false)).
  reflexivity.
Defined.

Lemma check_types_loop_KeyError (g r : dataset) (cs : list string) :
  forall m w,
  (exists c, In c cs /\ In c (columns g) /\ ~ In c (columns r)) ->
  exists c',
    check_types_loop g r cs m w = Raise (KeyError (repr_str c'))
    /\ In c' cs /\ In c' (columns g) /\ ~ In c' (columns r).
Proof.
  induction cs as [|n cs IH]; intros m w (c & Hin & Hg & Hr);
    [destruct Hin|].
  simpl. destruct (mem n (columns g)) eqn:Hn; simpl.
  - apply mem_In in Hn.
    destruct (find_column_In n g Hn) as (a & Ea & _).
    unfold getitem. rewrite Ea. simpl.
    destruct (find_column n r) as [b|] eqn:Eb; simpl.
    + assert (Hc : In c cs).
      { destruct Hin as [<-|]; [|assumption].
        apply find_column_Some_In in Eb. contradiction. }
      destruct (dtype_eqb (col_dtype a) (col_dtype b)); simpl;
        (edestruct IH as (c' & Hc' & H1 & H2 & H3); [eauto|];
         exists c'; rewrite Hc'; simpl; auto).
    + exists n. repeat split; simpl; auto.
      intros Hnr. destruct (find_column_In n r Hnr) as (b & Eb' & _).
      congruence.
  - assert (Hc : In c cs).
    { destruct Hin as [<-|]; [|assumption].
      apply mem_not_In in Hn. contradiction. }
    edestruct IH as (c' & Hc' & H1 & H2 & H3); [eauto|].
    exists c'. rewrite Hc'. simpl. auto.
Qed.

(** X14.  Naming in [check_types] a column that the actual frame has
    and the expected frame lacks makes [check_geodataframe] raise
    [KeyError] for such a column, before anything is written to the log
    and with both frames untouched. *)
Theorem check_types_on_a_column_the_expected_lacks
    (normpath : string -> string) (compare_with : string -> string -> string)
    (gdf ref_gdf : loc) (g r : dataset) (cs : list string) (c : string)
    (actual_path expected_path : option string)
    (check_data check_order check_extra_cols sortby : flag)
    (condition : option (dataset -> list bool)) (precision : option nat)
    (st : state) :
  heap st !! gdf = Some g -> heap st !! ref_gdf = Some r ->
  In c cs -> In c (columns g) -> ~ In c (columns r) ->
  exists c',
    check_geodataframe normpath compare_with gdf ref_gdf actual_path
      expected_path check_data (FList cs) check_order check_extra_cols sortby
      condition precision st
    = (Raise (KeyError (repr_str c')), st)
    /\ In c' cs /\ In c' (columns g) /\ ~ In c' (columns r).
Proof.
  intros Hg Hr Hc Hcg Hcr. apply lookup_total_correct in Hg, Hr.
  destruct (check_types_loop_KeyError g r cs [] [])
    as (c' & Hloop & H1 & H2 & H3); [eauto|].
  exists c'. split; [|auto].
  unfold check_geodataframe. rewrite !bind_load, Hg, Hr.
  unfold check_columns. cbn [resolve_option_flag]. rewrite Hloop.
  reflexivity.
Qed.

Lemma check_types_on_a_column_the_expected_lacks_witness :
  exists c',
    check_geodataframe plain_normpath plain_compare_with 0%nat 1%nat None None
      FNone (FList ["x"]) FNone FNone FNone None None
      (initial [extra_column; one_column])
    = (Raise (KeyError (repr_str c')), initial [extra_column; one_column])
    /\ In c' ["x"] /\ In c' (columns extra_column)
    /\ ~ In c' (columns one_column).
Proof.
  apply (check_types_on_a_column_the_expected_lacks plain_normpath
           plain_compare_with 0%nat 1%nat extra_column one_column ["x"] "x"
           None None FNone FNone FNone FNone None None
           (initial [extra_column; one_column])).
  - reflexivity.
  - reflexivity.
  - simpl. auto.
  - simpl. auto.
  - simpl. intros [H|[]]. discriminate H.
Defined.

Lemma skipn_cons_inv {A} (l : list A) (i : nat) (x : A) (t : list A) :
  skipn i l = x :: t -> nth_error l i = Some x /\ skipn (S i) l = t.
Proof.
  revert i. induction l as [|y l IH]; intros [|i] H; simpl in *;
    try discriminate.
  - inversion H; subst. auto.
  - destruct l; [destruct i; discriminate|]. now apply IH.
Qed.

Lemma ordermsg_loop_common_prefix (pre c1 c2 : list string) :
  forall i tl,
  skipn i c2 = pre ++ tl ->
  ordermsg_loop (pre ++ c1) c2 i = ordermsg_loop c1 c2 (i + length pre).
Proof.
  induction pre as [|x pre IH]; intros i tl H; simpl.
  - now rewrite Nat.add_0_r.
  - simpl in H. apply skipn_cons_inv in H as [Hnth Hskip].
    rewrite Hnth, String.eqb_refl. simpl.
    rewrite (IH (S i) tl Hskip). f_equal. lia.
Qed.

(** X15.  The explanation of a wrong ordering compares the two lists
    position by position.  It names the first position at which they
    differ ("found x, expected y"); it says "not enough columns" when
    the expected list is used up first; and it falls back to the
    "mysterious" text when the actual list is used up without a
    difference, also when the expected list goes on. *)
Theorem ordermsg_loop_cases (pre t1 t2 : list string) (x y : string) :
  x <> y ->
  ordermsg_loop (pre ++ x :: t1) (pre ++ y :: t2) 0
  = ("found " +:+ x +:+ ", expected " +:+ y)%string
  /\ ordermsg_loop (pre ++ x :: t1) pre 0 = "not enough columns"%string
  /\ ordermsg_loop pre (pre ++ t2) 0
     = "mysterious difference, they appear to be the same!"%string.
Proof.
  intros Hxy. repeat split.
  - rewrite (ordermsg_loop_common_prefix pre (x :: t1) _ 0 (y :: t2))
      by reflexivity.
    simpl. rewrite nth_error_app2 by lia. rewrite Nat.sub_diag. simpl.
    apply String.eqb_neq in Hxy. now rewrite Hxy.
  - rewrite (ordermsg_loop_common_prefix pre (x :: t1) _ 0 [])
      by (simpl; now rewrite app_nil_r).
    simpl. now rewrite (proj2 (nth_error_None pre (length pre))) by lia.
  - rewrite <- (app_nil_r pre) at 1.
    now rewrite (ordermsg_loop_common_prefix pre [] _ 0 t2) by reflexivity.
Qed.

Lemma ordermsg_loop_cases_witness :
  ordermsg_loop (["a"] ++ "b" :: ["c"]) (["a"] ++ "c" :: ["b"]) 0
  = ("found " +:+ "b" +:+ ", expected " +:+ "c")%string
  /\ ordermsg_loop (["a"] ++ "b" :: ["c"]) ["a"] 0
     = "not enough columns"%string
  /\ ordermsg_loop ["a"] (["a"] ++ ["b"]) 0
     = "mysterious difference, they appear to be the same!"%string.
Proof.
  apply (ordermsg_loop_cases ["a"] ["c"] ["b"] "b" "c"). discriminate.
Defined.

(** ** Field selections *)

(** X16.  [all_fields_except(exclusions)], applied to a frame, lists
    every column of the frame that is not excluded and nothing else,
    each name once, also when the frame repeats a name or the exclusions
    name columns the frame does not have. *)
Theorem all_fields_except_selects (exclusions : list string) (gdf : dataset) :
  List.NoDup (all_fields_except exclusions gdf)
  /\ forall c, In c (all_fields_except exclusions gdf)
               <-> In c (columns gdf) /\ ~ In c exclusions.
Proof.
  unfold all_fields_except. split.
  - apply NoDup_ListNoDup, NoDup_elements.
  - intros c. rewrite <- !list_elem_of_In, elem_of_elements,
      elem_of_difference, !elem_of_list_to_set. reflexivity.
Qed.

Example all_fields_except_as_a_flag :
  resolve_option_flag (FFun (all_fields_except ["b"])) df1 = ["a"].
Proof. vm_compute. reflexivity. Qed.

(** ** The length check *)

Lemma failure_appends (normpath : string -> string)
    (compare_with : string -> string -> string) (s : string)
    (actual_path expected_path : option string) (st : state) :
  failure normpath compare_with s actual_path expected_path st
  = (Ok tt,
     State (heap st)
       (diffs st
        ++ file_line normpath compare_with actual_path expected_path ++ [s])).
Proof.
  unfold failure, file_line, bind, info, ret.
  destruct (path_given actual_path), (path_given expected_path); simpl;
    rewrite <- ?app_assoc; reflexivity.
Qed.

(** X17.  When the two frames do not have the same number of rows the
    content check stops at the length check: it writes the file line (if
    a path was given), "Length check failed." and the two counts, and
    reports failure; no column is projected or compared, so no column
    message is written and a [check_data] that names absent columns does
    not raise. *)
Theorem length_check_short_circuits
    (normpath : string -> string) (compare_with : string -> string -> string)
    (g r : dataset) (check_data : flag) (missing : list string) (p : nat)
    (actual_path expected_path : option string) (st : state) :
  nrows g <> nrows r ->
  check_contents normpath compare_with g r check_data missing p
    actual_path expected_path st
  = (Ok false,
     State (heap st)
       (diffs st
        ++ file_line normpath compare_with actual_path expected_path
        ++ [ "Length check failed.";
             "Found " +:+ str_nat (nrows g) +:+ " records, expected "
             +:+ str_nat (nrows r) ])).
Proof.
  intros Hn. unfold check_contents.
  apply Nat.eqb_neq in Hn. rewrite Hn. cbn [negb].
  unfold bind at 1. rewrite failure_appends.
  unfold bind, info, ret. cbn [heap diffs].
  now rewrite <- !app_assoc.
Qed.

Lemma length_check_short_circuits_witness :
  check_contents plain_normpath plain_compare_with single colours
    (FList ["no such column"]) [] 6 None (Some "colours.parquet")
    (State ∅ [])
  = (Ok false,
     State (heap (State ∅ []))
       (diffs (State ∅ [])
        ++ file_line plain_normpath plain_compare_with None
             (Some "colours.parquet")
        ++ [ "Length check failed.";
             "Found " +:+ str_nat (nrows single) +:+ " records, expected "
             +:+ str_nat (nrows colours) ])).
Proof.
  apply (length_check_short_circuits plain_normpath plain_compare_with
           single colours (FList ["no such column"]) [] 6 None
           (Some "colours.parquet") (State ∅ [])).
  simpl. lia.
Defined.

Lemma identity_with_extra_check_off_witness :
  check_geodataframe plain_normpath plain_compare_with 0%nat 0%nat None None
    FNone FNone FNone FFalse FNone None None (initial [df1])
  = (Ok 0%nat, initial [df1]).
Proof.
  apply (identity_with_extra_check_off plain_normpath plain_compare_with
           0%nat 0%nat df1 None (initial [df1])).
  - repeat constructor; simpl; intuition discriminate.
  - reflexivity.
  - reflexivity.
Defined.

(** ** A verdict for every pair of well-formed frames *)

Lemma nr_ret {A} (a : A) : never_raises (ret a).
Proof. intros st. now exists a, st. Qed.

Lemma nr_info s : never_raises (info s).
Proof. intros st. unfold info. eauto. Qed.

Lemma nr_lift_Ok {A} (a : A) : never_raises (lift (Ok a)).
Proof. intros st. now exists a, st. Qed.

Lemma nr_bind {A B} (m : M A) (k : A -> M B) :
  never_raises m -> (forall a, never_raises (k a)) -> never_raises (bind m k).
Proof.
  intros Hm Hk st. unfold bind. destruct (Hm st) as (a & st1 & ->).
  apply Hk.
Qed.

Lemma nr_if {A} (b : bool) (m1 m2 : M A) :
  never_raises m1 -> never_raises m2 -> never_raises (if b then m1 else m2).
Proof. now destruct b. Qed.

Create HintDb returns.
#[local] Hint Resolve nr_ret nr_info nr_bind nr_if : returns.

Lemma nr_failure normpath compare_with s ap ep :
  never_raises (failure normpath compare_with s ap ep).
Proof. unfold failure. auto 10 with returns. Qed.

Lemma nr_info_wrong_types wt : never_raises (info_wrong_types wt).
Proof.
  induction wt as [|[[c dt] rdt] rest IH]; simpl; auto with returns.
Qed.

#[local] Hint Resolve nr_failure nr_info_wrong_types : returns.

Lemma nr_report_columns normpath compare_with g r ct s ap ep :
  never_raises (report_columns normpath compare_with g r ct s ap ep).
Proof. unfold report_columns. auto 12 with returns. Qed.

Lemma differences_total (a b : column) (p : nat) :
  length (values a) = length (values b) ->
  exists s, differences a b p = Ok s.
Proof.
  intros Hlen. unfold differences.
  destruct (forallb2 agree (values a) (values b)) eqn:E.
  - rewrite differences_loop_no_row by exact E. eauto.
  - destruct (differences_loop_finds a b p (values a) Hlen 0%nat eq_refl E)
      as (j & s1 & s2 & H).
    rewrite H. eauto.
Qed.

Lemma find_column_Some_elem (c : string) (d : dataset) (x : column) :
  find_column c d = Some x -> In x d /\ name x = c.
Proof.
  induction d as [|y d IH]; simpl; [discriminate|].
  destruct (String.eqb_spec c (name y)) as [->|Hne].
  - intros H; inversion H; subst. auto.
  - intros H. destruct (IH H). auto.
Qed.

Lemma project_total (d : dataset) (names : list string) :
  (forall c, In c names -> In c (columns d)) ->
  exists d', project d names = Ok d'
             /\ columns d' = names /\ Forall (fun x => In x d) d'.
Proof.
  unfold project. induction names as [|c names IH]; intros H; simpl.
  - exists []. auto.
  - destruct (find_column_In c d) as (x & Hx & Hname); [apply H; now left|].
    unfold getitem at 1. rewrite Hx. simpl.
    destruct IH as (d' & Hd' & Hcols & Hall); [intros; apply H; now right|].
    rewrite Hd'. simpl. exists (x :: d'). repeat split.
    + simpl. now rewrite Hname, Hcols.
    + constructor; [|exact Hall]. now apply find_column_Some_elem in Hx.
Qed.

Lemma report_differences_total (A B : dataset) (cs : list string) (p : nat) :
  (forall c, In c cs ->
     exists a b, find_column c A = Some a /\ find_column c B = Some b
                 /\ length (values a) = length (values b)) ->
  never_raises (report_differences A B cs p).
Proof.
  induction cs as [|c cs IH]; intros H; simpl; [apply nr_ret|].
  destruct (H c) as (a & b & Ha & Hb & Hlen); [now left|].
  intros st. unfold bind at 1, lift at 1, getitem at 1. rewrite Ha.
  unfold bind at 1, lift at 1, getitem at 1. rewrite Hb.
  revert st. apply nr_bind; [|intros ?; apply IH; intros; apply H; now right].
  destruct (series_equals a b); [apply nr_ret|]. cbn [negb].
  destruct (differences_total a b p Hlen) as [d Hd]. rewrite Hd.
  apply nr_bind; [apply nr_lift_Ok | intros; auto with returns].
Qed.

Lemma length_round_column (p : nat) (x : column) :
  length (values (round_column p x)) = length (values x).
Proof.
  unfold round_column. destruct (col_dtype x); simpl; auto.
  now rewrite length_map.
Qed.

Lemma rounded_lengths (p : nat) (d d' : dataset) (c : string) :
  well_formed d -> Forall (fun x => In x d) d' ->
  In c (columns d') ->
  exists a, find_column c (round_frame p d') = Some a
            /\ length (values a) = nrows d.
Proof.
  intros Hwf Hsub Hc. rewrite <- (columns_round_frame p) in Hc.
  destruct (find_column_In c _ Hc) as (a & Ha & _). exists a.
  split; [exact Ha|].
  apply find_column_Some_elem in Ha as [Hin _].
  unfold round_frame in Hin. apply in_map_iff in Hin as (y & <- & Hy).
  rewrite length_round_column.
  unfold well_formed in Hwf.
  rewrite List.Forall_forall in Hsub, Hwf. auto.
Qed.

Lemma check_contents_total (normpath : string -> string)
    (compare_with : string -> string -> string) (g r : dataset) (p : nat)
    (ap ep : option string) :
  well_formed g -> well_formed r ->
  never_raises
    (check_contents normpath compare_with g r FNone
       (List.filter (fun c => negb (mem c (columns g))) (columns r))
       p ap ep).
Proof.
  intros Hg Hr. unfold check_contents.
  destruct (Nat.eqb_spec (nrows g) (nrows r)) as [Hn|Hn]; cbn [negb];
    [|auto 10 with returns].
  change (resolve_option_flag FNone r) with (columns r).
  destruct (nonempty (columns r)); [|apply nr_ret].
  set (m := List.filter (fun c => negb (mem c (columns g))) (columns r)).
  set (cd := List.filter (fun c => negb (mem c m)) (columns r)).
  assert (Hcd_r : forall c, In c cd -> In c (columns r)).
  { intros c Hc. now apply filter_In in Hc. }
  assert (Hcd_g : forall c, In c cd -> In c (columns g)).
  { intros c Hc. apply filter_In in Hc as [Hcr Hcm].
    destruct (mem c (columns g)) eqn:E; [now apply mem_In|].
    assert (In c m) by (apply filter_In; now rewrite E).
    apply mem_In in H. rewrite H in Hcm. discriminate. }
  destruct (project_total g cd Hcd_g) as (g' & Hpg & Hcg & Hsg).
  destruct (project_total r cd Hcd_r) as (r' & Hpr & Hcr & Hsr).
  rewrite Hpg, Hpr. intros st. rewrite !bind_lift_Ok. revert st.
  apply nr_bind; [|intros; apply nr_ret].
  apply nr_if; [|apply nr_ret].
  apply nr_bind; [apply nr_failure|]. intros _.
  apply report_differences_total. intros c Hc.
  rewrite columns_round_frame, Hcr in Hc.
  destruct (rounded_lengths p g g' c Hg Hsg) as (a & Ha & Hla);
    [now rewrite Hcg|].
  destruct (rounded_lengths p r r' c Hr Hsr) as (b & Hb & Hlb);
    [now rewrite Hcr|].
  exists a, b. repeat split; [exact Ha | exact Hb | congruence].
Qed.

Lemma check_types_loop_total (g r : dataset) (cs : list string) :
  (forall c, In c cs -> In c (columns r)) ->
  forall m w, exists m' w', check_types_loop g r cs m w = Ok (m', w').
Proof.
  induction cs as [|c cs IH]; intros H m w; simpl; [eauto|].
  assert (Hrest : forall c', In c' cs -> In c' (columns r))
    by (intros; apply H; now right).
  destruct (mem c (columns g)) eqn:Hc; simpl; [|now apply IH].
  apply mem_In in Hc. destruct (find_column_In c g Hc) as (a & Ha & _).
  destruct (find_column_In c r) as (b & Hb & _); [apply H; now left|].
  unfold getitem. rewrite Ha, Hb. simpl.
  destruct (dtype_eqb (col_dtype a) (col_dtype b)); simpl; now apply IH.
Qed.



(** ** The row filter *)

Lemma w_ret {A} (a : A) : is_writer (ret a).
Proof. exists (Ok a), []. intros [h l]. simpl. now rewrite app_nil_r. Qed.

Lemma w_lift {A} (r : result A) : is_writer (lift r).
Proof. exists r, []. intros [h l]. simpl. now rewrite app_nil_r. Qed.

Lemma w_info s : is_writer (info s).
Proof. exists (Ok tt), [s]. now intros st. Qed.

Lemma w_bind {A B} (m : M A) (k : A -> M B) :
  is_writer m -> (forall a, is_writer (k a)) -> is_writer (bind m k).
Proof.
  intros (r1 & l1 & H1) Hk. destruct r1 as [a|e].
  - destruct (Hk a) as (r2 & l2 & H2). exists r2, (l1 ++ l2).
    intros st. unfold bind. rewrite H1, H2. simpl. now rewrite app_assoc.
  - exists (Raise e), l1. intros st. unfold bind. now rewrite H1.
Qed.

Lemma bind_writer {A B} (m : M A) (k : A -> M B) (res : result A)
    (lines : list string) (st : state) :
  (forall st, m st = (res, State (heap st) (diffs st ++ lines))) ->
  bind m k st
  = match res with
    | Ok a => k a (State (heap st) (diffs st ++ lines))
    | Raise e => (Raise e, State (heap st) (diffs st ++ lines))
    end.
Proof. intros H. unfold bind. rewrite H. now destruct res. Qed.

Lemma w_if {A} (b : bool) (m1 m2 : M A) :
  is_writer m1 -> is_writer m2 -> is_writer (if b then m1 else m2).
Proof. now destruct b. Qed.

Create HintDb writers.
#[local] Hint Resolve w_ret w_lift w_info w_bind w_if : writers.

Lemma w_failure normpath compare_with s ap ep :
  is_writer (failure normpath compare_with s ap ep).
Proof. unfold failure. auto 10 with writers. Qed.

Lemma w_info_wrong_types wt : is_writer (info_wrong_types wt).
Proof.
  induction wt as [|[[c dt] rdt] rest IH]; simpl; auto with writers.
Qed.

Lemma w_report_differences a b cs p : is_writer (report_differences a b cs p).
Proof.
  induction cs as [|c cs IH]; simpl; auto 12 with writers.
Qed.

#[local] Hint Resolve w_failure w_info_wrong_types w_report_differences
  : writers.

Lemma w_report_columns normpath compare_with g r ct s ap ep :
  is_writer (report_columns normpath compare_with g r ct s ap ep).
Proof. unfold report_columns. auto 12 with writers. Qed.

Lemma w_check_contents normpath compare_with g r cd missing p ap ep :
  is_writer (check_contents normpath compare_with g r cd missing p ap ep).
Proof.
  unfold check_contents.
  repeat (first [ apply w_if | apply w_bind; [|intros ?] ]);
    auto 12 with writers.
Qed.

Lemma same_header_columns (d d' : dataset) :
  same_header d d' -> columns d' = columns d.
Proof.
  induction 1 as [|a b d d' [Hn _] _ IH]; simpl; [reflexivity|].
  now rewrite Hn, IH.
Qed.

Lemma same_header_find (d d' : dataset) (c : string) :
  same_header d d' ->
  match find_column c d, find_column c d' with
  | Some a, Some b => col_dtype a = col_dtype b
  | None, None => True
  | _, _ => False
  end.
Proof.
  induction 1 as [|a b d d' [Hn Hd] _ IH]; simpl; [exact I|].
  rewrite <- Hn. destruct (String.eqb c (name a)); [exact Hd | exact IH].
Qed.

Lemma check_types_loop_same_header (g g' r r' : dataset) (cs : list string) :
  same_header g g' -> same_header r r' ->
  forall m w,
  check_types_loop g' r' cs m w = check_types_loop g r cs m w.
Proof.
  intros Hg Hr. induction cs as [|c cs IH]; intros m w; simpl; [reflexivity|].
  rewrite (same_header_columns g g' Hg).
  destruct (mem c (columns g)); simpl; [|apply IH].
  pose proof (same_header_find g g' c Hg) as Fg.
  pose proof (same_header_find r r' c Hr) as Fr.
  unfold getitem.
  destruct (find_column c g) as [a|], (find_column c g') as [a'|];
    try contradiction; simpl; [|reflexivity].
  destruct (find_column c r) as [b|], (find_column c r') as [b'|];
    try contradiction; simpl; [|reflexivity].
  rewrite <- Fg, <- Fr.
  destruct (dtype_eqb (col_dtype a) (col_dtype b)); simpl; apply IH.
Qed.

Lemma resolve_static (fl : flag) (d d' : dataset) :
  static fl -> columns d' = columns d ->
  resolve_option_flag fl d' = resolve_option_flag fl d.
Proof. destruct fl; simpl; intros Hs Hc; auto. contradiction. Qed.

Lemma check_columns_same_header (g g' r r' : dataset)
    (check_types check_order check_extra_cols : flag) :
  same_header g g' -> same_header r r' ->
  static check_types -> static check_order -> static check_extra_cols ->
  check_columns g' r' check_types check_order check_extra_cols
  = check_columns g r check_types check_order check_extra_cols.
Proof.
  intros Hg Hr Ht Ho He. unfold check_columns.
  pose proof (same_header_columns g g' Hg) as Cg.
  pose proof (same_header_columns r r' Hr) as Cr.
  rewrite (resolve_static check_types r r' Ht Cr),
          (resolve_static check_extra_cols g g' He Cg),
          (resolve_static check_order r r' Ho Cr),
          (check_types_loop_same_header g g' r r' _ Hg Hr), Cg, Cr.
  reflexivity.
Qed.

Lemma apply_condition_same_header (f : dataset -> list bool)
    (d d' : dataset) :
  apply_condition (Some f) d = Ok d' -> same_header d d'.
Proof.
  unfold apply_condition.
  destruct (Nat.eqb (length (f d)) (nrows d)); [|discriminate].
  intros H; inversion H; subst; clear H.
  unfold same_header. generalize (f d) as mask. intros mask.
  induction d as [|c d IH]; simpl; constructor; auto.
Qed.

(** X20.  Filtering inside the call is filtering before the call.  With
    no sort and with flags for the column check that are not functions,
    comparing two frames under a [condition] gives the same result
    (count or exception) and the same log as comparing, without a
    condition, the two frames the condition selects from them. *)
Theorem condition_filters_before_comparing
    (normpath : string -> string) (compare_with : string -> string -> string)
    (gdf ref_gdf : loc) (g r g' r' : dataset) (f : dataset -> list bool)
    (actual_path expected_path : option string)
    (check_data check_types check_order check_extra_cols sortby : flag)
    (precision : option nat) (st st_filtered : state) :
  heap st !! gdf = Some g -> heap st !! ref_gdf = Some r ->
  heap st_filtered !! gdf = Some g' -> heap st_filtered !! ref_gdf = Some r' ->
  diffs st_filtered = diffs st ->
  apply_condition (Some f) g = Ok g' -> apply_condition (Some f) r = Ok r' ->
  static check_types -> static check_order -> static check_extra_cols ->
  truthy sortby = false ->
  let inside :=
    check_geodataframe normpath compare_with gdf ref_gdf actual_path
      expected_path check_data check_types check_order check_extra_cols
      sortby (Some f) precision st in
  let before :=
    check_geodataframe normpath compare_with gdf ref_gdf actual_path
      expected_path check_data check_types check_order check_extra_cols
      sortby None precision st_filtered in
  fst inside = fst before /\ diffs (snd inside) = diffs (snd before).
Proof.
  intros Hg Hr Hg' Hr' Hd Fg Fr Ht Ho He Hs inside before.
  subst inside before.
  apply lookup_total_correct in Hg, Hr, Hg', Hr'.
  pose proof (apply_condition_same_header f g g' Fg) as Sg.
  pose proof (apply_condition_same_header f r r' Fr) as Sr.
  pose proof (same_header_columns g g' Sg) as Cg.
  pose proof (same_header_columns r r' Sr) as Cr.
  unfold check_geodataframe.
  rewrite !bind_load, Hg, Hr, Hg', Hr'.
  rewrite (check_columns_same_header g g' r r' _ _ _ Sg Sr Ht Ho He).
  rewrite (resolve_static check_types r r' Ht Cr).
  destruct (check_columns g r check_types check_order check_extra_cols)
    as [s|e]; [|simpl; auto].
  rewrite !bind_lift_Ok.
  assert (Hrep :
    report_columns normpath compare_with g' r'
      (resolve_option_flag check_types r) s actual_path expected_path
    = report_columns normpath compare_with g r
        (resolve_option_flag check_types r) s actual_path expected_path).
  { unfold report_columns. now rewrite Cg, Cr. }
  rewrite Hrep.
  destruct (w_report_columns normpath compare_with g r
              (resolve_option_flag check_types r) s actual_path expected_path)
    as (res1 & lines1 & H1).
  rewrite !(bind_writer _ _ _ _ _ H1).
  destruct res1 as [[]|e]; [|simpl; now rewrite Hd].
  unfold sort_phase. rewrite Hs. rewrite !bind_ret, !bind_load.
  cbn [heap]. rewrite Hg, Hr, Hg', Hr', Fg, Fr.
  change (apply_condition None ?d) with (Ok d). rewrite !bind_lift_Ok.
  destruct (w_check_contents normpath compare_with g' r' check_data
              (missing_cols s) (default 6%nat precision) actual_path
              expected_path)
    as (res2 & lines2 & H2).
  rewrite !(bind_writer _ _ _ _ _ H2). cbn [heap diffs]. rewrite Hd.
  destruct res2; simpl; auto.
Qed.

Lemma condition_filters_before_comparing_witness :
  let keep_first := fun d : dataset => [true; false] in
  let inside :=
    check_geodataframe plain_normpath plain_compare_with 0%nat 1%nat None None
      FNone FNone FNone FFalse FNone (Some keep_first) None
      (initial [unsorted; sorted]) in
  let before :=
    check_geodataframe plain_normpath plain_compare_with 0%nat 1%nat None None
      FNone FNone FNone FFalse FNone None None
      (initial [ [Column "a" int64 (ints [2])];
                 [Column "a" int64 (ints [1])] ]) in
  fst inside = fst before /\ diffs (snd inside) = diffs (snd before).
Proof.
  apply (condition_filters_before_comparing plain_normpath plain_compare_with
           0%nat 1%nat unsorted sorted
           [Column "a" int64 (ints [2])] [Column "a" int64 (ints [1])]
           (fun _ => [true; false]) None None FNone FNone FNone FFalse FNone
           None (initial [unsorted; sorted])
           (initial [ [Column "a" int64 (ints [2])];
                      [Column "a" int64 (ints [1])] ]));
    try reflexivity; exact I.
Defined.

(** ** The same columns in another order *)

Lemma find_column_of_member (d : dataset) (x : column) :
  List.NoDup (columns d) -> In x d -> find_column (name x) d = Some x.
Proof.
  induction d as [|y d IH]; simpl; intros Hnd Hin; [destruct Hin|].
  inversion Hnd as [|? ? Hy Hnd']; subst.
  destruct Hin as [->|Hin]; [now rewrite String.eqb_refl|].
  destruct (String.eqb_spec (name x) (name y)) as [E|_]; [|auto].
  exfalso. apply Hy. rewrite <- E. unfold columns. now apply in_map.
Qed.

Lemma find_column_Permutation (g r : dataset) (n : string) :
  List.NoDup (columns r) -> Permutation g r ->
  find_column n g = find_column n r.
Proof.
  intros Hnd Hp.
  assert (Hnames : Permutation (columns g) (columns r))
    by (unfold columns; now apply Permutation_map).
  assert (Hndg : List.NoDup (columns g))
    by (eapply Permutation_NoDup; [symmetry; exact Hnames | exact Hnd]).
  destruct (find_column n g) as [x|] eqn:Eg.
  - apply find_column_Some_elem in Eg as [Hin <-].
    symmetry. apply find_column_of_member; [exact Hnd|].
    eapply Permutation_in; eauto.
  - destruct (find_column n r) as [y|] eqn:Er; [|reflexivity].
    apply find_column_Some_elem in Er as [Hin <-].
    rewrite find_column_of_member in Eg; [discriminate | exact Hndg |].
    eapply Permutation_in; [symmetry; exact Hp | exact Hin].
Qed.

Lemma rmapM_ext {A B} (f f' : A -> result B) (l : list A) :
  (forall x, f x = f' x) -> rmapM f l = rmapM f' l.
Proof.
  intros H. induction l as [|a l IH]; simpl; [reflexivity|].
  now rewrite H, IH.
Qed.

Lemma filter_all {A} (f : A -> bool) (l : list A) :
  (forall x, In x l -> f x = true) -> List.filter f l = l.
Proof.
  induction l as [|a l IH]; simpl; intros H; [reflexivity|].
  rewrite (H a) by now left. f_equal. apply IH. intros; apply H; now right.
Qed.

Lemma names_eqb_eq (l1 l2 : list string) :
  names_eqb l1 l2 = true <-> l1 = l2.
Proof.
  revert l2. induction l1 as [|a l1 IH]; intros [|b l2]; simpl;
    try (split; [discriminate | discriminate]); [tauto|].
  rewrite andb_true_iff, String.eqb_eq, IH. split.
  - intros [-> ->]. reflexivity.
  - intros H; inversion H; auto.
Qed.

Lemma first_difference (l1 l2 : list string) :
  length l1 = length l2 -> l1 <> l2 ->
  exists pre x y t1 t2,
    l1 = pre ++ x :: t1 /\ l2 = pre ++ y :: t2 /\ x <> y.
Proof.
  revert l2. induction l1 as [|a l1 IH]; intros [|b l2] Hlen Hne;
    simpl in Hlen; try discriminate; [congruence|].
  destruct (string_dec a b) as [->|Hab].
  - destruct (IH l2) as (pre & x & y & t1 & t2 & -> & -> & Hxy);
      [lia | congruence |].
    exists (b :: pre), x, y, t1, t2. auto.
  - exists [], a, b, l1, l2. auto.
Qed.

Section Reordered.

Variable normpath : string -> string.
Variable compare_with : string -> string -> string.
Variables (g r : dataset).

Hypothesis names_differ : List.NoDup (columns r).
Hypothesis same_columns : Permutation g r.
Hypothesis rows : well_formed r.

Lemma reordered_names : Permutation (columns g) (columns r).
Proof. unfold columns. now apply Permutation_map. Qed.

Lemma reordered_nrows : nrows g = nrows r.
Proof.
  destruct g as [|x g'] eqn:Eg.
  - apply Permutation_nil in same_columns. now subst.
  - simpl. unfold well_formed in rows.
    rewrite List.Forall_forall in rows. apply rows.
    eapply Permutation_in; [exact same_columns | now left].
Qed.

Lemma reordered_types (m : list string) (w : list (string * dtype * dtype)) :
  check_types_loop g r (columns r) m w = Ok (m, w).
Proof.
  apply check_types_loop_agreeing. intros n Hn.
  destruct (find_column_In n r Hn) as (b & Hb & _).
  exists b, b. rewrite (find_column_Permutation g r n names_differ same_columns).
  auto.
Qed.

Lemma reordered_filters :
  List.filter (fun c => mem c (columns r)) (columns g) = columns g
  /\ List.filter (fun c => mem c (columns r)) (columns r) = columns r.
Proof.
  split; apply filter_all; intros c Hc; apply mem_In; [|exact Hc].
  eapply Permutation_in; [exact reordered_names | exact Hc].
Qed.

Lemma reordered_contents (p : nat) (ap ep : option string) (st : state) :
  check_contents normpath compare_with g r FNone [] p ap ep st = (Ok true, st).
Proof.
  unfold check_contents. rewrite reordered_nrows, Nat.eqb_refl.
  change (negb true) with false. cbv iota.
  change (resolve_option_flag FNone r) with (columns r).
  destruct (nonempty (columns r)); [|reflexivity].
  rewrite filter_not_mem_nil.
  assert (Hpg : project g (columns r) = Ok r).
  { unfold project.
    rewrite (rmapM_ext (getitem g) (getitem r)).
    - now apply project_self.
    - intros n. unfold getitem.
      now rewrite (find_column_Permutation g r n names_differ same_columns). }
  rewrite Hpg, (project_self r names_differ), !bind_lift_Ok.
  now rewrite frame_equals_refl.
Qed.

End Reordered.

(** X21.  With [check_order=False] (and the extra-column check off) the
    order of the columns is immaterial: two well-formed frames that hold
    the same columns, in whatever order, compare equal; the call returns
    0 and writes nothing. *)
Theorem column_order_is_immaterial_without_the_order_check
    (normpath : string -> string) (compare_with : string -> string -> string)
    (gdf ref_gdf : loc) (g r : dataset)
    (actual_path expected_path : option string) (precision : option nat)
    (st : state) :
  heap st !! gdf = Some g -> heap st !! ref_gdf = Some r ->
  List.NoDup (columns r) -> Permutation g r -> well_formed r ->
  check_geodataframe normpath compare_with gdf ref_gdf actual_path
    expected_path FNone FNone FFalse FFalse FNone None precision st
  = (Ok 0%nat, st).
Proof.
  intros Hg Hr Hnd Hp Hwf. apply lookup_total_correct in Hg, Hr.
  unfold check_geodataframe. rewrite !bind_load, Hg, Hr.
  unfold check_columns. cbn [resolve_option_flag].
  rewrite (reordered_types g r Hnd Hp). cbn [rbind nonempty not_False andb].
  rewrite bind_lift_Ok, report_columns_clean, bind_ret.
  change (sort_phase gdf ref_gdf r FNone
            (missing_cols (Schema [] [] [] false)))
    with (ret tt).
  rewrite bind_ret, !bind_load, Hg, Hr.
  change (apply_condition None ?d) with (Ok d). rewrite !bind_lift_Ok.
  change (missing_cols (Schema [] [] [] false)) with (@nil string).
  unfold bind.
  now rewrite (reordered_contents normpath compare_with g r Hnd Hp Hwf).
Qed.

Lemma column_order_is_immaterial_without_the_order_check_witness :
  check_geodataframe plain_normpath plain_compare_with 0%nat 1%nat None None
    FNone FNone FFalse FFalse FNone None None (initial [cols_ab; cols_ba])
  = (Ok 0%nat, initial [cols_ab; cols_ba]).
Proof.
  apply (column_order_is_immaterial_without_the_order_check plain_normpath
           plain_compare_with 0%nat 1%nat cols_ab cols_ba None None None
           (initial [cols_ab; cols_ba])).
  - reflexivity.
  - reflexivity.
  - repeat constructor; simpl; intuition discriminate.
  - apply perm_swap.
  - repeat constructor.
Defined.

(** X22.  With the flags at their defaults (and the extra-column check
    off), two well-formed frames that hold the same columns in a
    different order fail on the ordering alone: the call returns 1 and
    writes the file line (if a path was given), "Column check failed."
    and "Wrong column ordering: found x, expected y", where x and y are
    the names at the first position at which the two orders differ.  The
    fallback text of the explanation does not occur here. *)
Theorem reordered_columns_fail_on_the_ordering
    (normpath : string -> string) (compare_with : string -> string -> string)
    (gdf ref_gdf : loc) (g r : dataset)
    (actual_path expected_path : option string) (precision : option nat)
    (st : state) :
  heap st !! gdf = Some g -> heap st !! ref_gdf = Some r ->
  List.NoDup (columns r) -> Permutation g r -> well_formed r ->
  columns g <> columns r ->
  exists pre x y t1 t2,
    columns g = pre ++ x :: t1 /\ columns r = pre ++ y :: t2 /\ x <> y
    /\ check_geodataframe normpath compare_with gdf ref_gdf actual_path
         expected_path FNone FNone FNone FFalse FNone None precision st
       = (Ok 1%nat,
          State (heap st)
            (diffs st
             ++ file_line normpath compare_with actual_path expected_path
             ++ [ "Column check failed.";
                  "Wrong column ordering: found " +:+ x +:+ ", expected "
                  +:+ y ])).
Proof.
  intros Hg Hr Hnd Hp Hwf Hne. apply lookup_total_correct in Hg, Hr.
  destruct (first_difference (columns g) (columns r))
    as (pre & x & y & t1 & t2 & Eg & Er & Hxy);
    [apply Permutation_length, (reordered_names g r Hp) | exact Hne |].
  exists pre, x, y, t1, t2. do 3 (split; [assumption|]).
  destruct (reordered_filters g r Hp) as [Fg Fr].
  assert (Hord : names_eqb (columns g) (columns r) = false).
  { destruct (names_eqb (columns g) (columns r)) eqn:E; [|reflexivity].
    apply names_eqb_eq in E. contradiction. }
  unfold check_geodataframe. rewrite !bind_load, Hg, Hr.
  unfold check_columns. cbn [resolve_option_flag].
  rewrite (reordered_types g r Hnd Hp). cbn [rbind nonempty not_False andb negb].
  rewrite Fg, Fr, Hord. cbn [negb]. rewrite bind_lift_Ok.
  unfold report_columns.
  change (any_axis (Schema [] [] [] true)) with true. cbv iota.
  cbn [missing_cols extra_cols wrong_types wrong_ordering nonempty
       info_wrong_types].
  rewrite Fg, Fr.
  unfold bind at 1. unfold bind at 1. rewrite failure_appends.
  rewrite !bind_ret. unfold info at 1.
  change (sort_phase gdf ref_gdf r FNone (@nil string)) with (ret tt).
  rewrite bind_ret, !bind_load. cbn [heap]. rewrite Hg, Hr.
  change (apply_condition None ?d) with (Ok d). rewrite !bind_lift_Ok.
  unfold bind.
  rewrite (reordered_contents normpath compare_with g r Hnd Hp Hwf).
  cbn [ret any_axis missing_cols extra_cols wrong_types wrong_ordering
       nonempty orb andb negb diffs heap].
  rewrite Eg, Er.
  rewrite (ordermsg_loop_common_prefix pre (x :: t1) _ 0 (y :: t2))
    by reflexivity.
  cbn [ordermsg_loop Nat.add length].
  rewrite nth_error_app2 by lia. rewrite Nat.sub_diag. cbn [nth_error].
  apply String.eqb_neq in Hxy. rewrite Hxy. cbn [negb].
  now rewrite <- !app_assoc.
Qed.

Lemma reordered_columns_fail_on_the_ordering_witness :
  exists pre x y t1 t2,
    columns cols_ab = pre ++ x :: t1 /\ columns cols_ba = pre ++ y :: t2
    /\ x <> y
    /\ check_geodataframe plain_normpath plain_compare_with 0%nat 1%nat
         None None FNone FNone FNone FFalse FNone None None
         (initial [cols_ab; cols_ba])
       = (Ok 1%nat,
          State (heap (initial [cols_ab; cols_ba]))
            (diffs (initial [cols_ab; cols_ba])
             ++ file_line plain_normpath plain_compare_with None None
             ++ [ "Column check failed.";
                  "Wrong column ordering: found " +:+ x +:+ ", expected "
                  +:+ y ])).
Proof.
  apply (reordered_columns_fail_on_the_ordering plain_normpath
           plain_compare_with 0%nat 1%nat cols_ab cols_ba None None None
           (initial [cols_ab; cols_ba])).
  - reflexivity.
  - reflexivity.
  - repeat constructor; simpl; intuition discriminate.
  - apply perm_swap.
  - repeat constructor.
  - discriminate.
Defined.
